(** * SubNetree brand icons: [assets/brand/generate-icons.py]

    The script draws the tree-topology icon with Pillow and exports it as
    two multi-resolution ICO files and two sets of PNG files.  This file
    embeds the script and proves the properties its specification states.

    What is embedded, and how:
    - Pillow is the boundary.  A call into Pillow is recorded with the
      arguments the script passes; it is not rasterised.  An image is the
      arguments of [Image.new] together with the drawing calls made on it,
      oldest first; a saved file is the arguments of [save].
    - Images are Python objects: [Image.new] allocates one, the drawing
      calls mutate it through the [ImageDraw] handle, and [draw_icon]
      returns a reference.  The embedding keeps the object store.
    - [palette[key]] raises [KeyError] on a missing key; the embedding
      keeps the exception and the point where it is raised.
    - [size / 256] is a binary64 float in Python.  256 is a power of two
      and every design constant is a multiple of 1/2 below 256, so each
      product [x * s] is exact for every size below 2^44; the embedding
      computes with exact rationals.

    Where the boundary lies:
    - The checks Pillow makes on its arguments are not embedded:
      [Image.new] raises for a negative size and the drawing calls for an
      ill-ordered box, which the background box is at size 0.  The
      embedding stands for the script at sizes of at least 1, the sizes the
      script is written for.
    - [os.path.join] is kept as the pair of its arguments; which file of
      the file system a pair names is not embedded.
    - [save] is kept as its arguments.  For the ICO format, which of the
      images passed end up in the file is decided by Pillow's writer; the
      rule it documents is stated apart, as [ico_kept_sizes]. *)

From Stdlib Require Import ZArith QArith Lia DecimalString.
From stdpp Require Import base strings gmap list.

Open Scope Z_scope.

(** ** Numbers *)

(** Python's [int(x)] on a float: truncation towards zero. *)
Definition int (q : Q) : Z := Z.quot (Qnum q) (Z.pos (Qden q)).

(** [str(n)] on an integer, as the f-strings use it. *)
Definition str (n : Z) : string := NilZero.string_of_int (Z.to_int n).

(** ** Pillow values *)

(** A colour is a tuple of integers: RGB or RGBA. *)
Abbreviation color := (list Z).

(** A bounding box [[x0, y0, x1, y1]]. *)
Abbreviation box := (Z * Z * Z * Z)%type.

(** The [ImageDraw] calls the script makes.  [Ellipse] carries the
    keyword defaults of Pillow where the script leaves them out:
    [fill=None], [outline=None], [width=1]. *)
Inductive draw_op :=
| RoundedRectangle (xy : box) (radius : Z) (fill : color)
| Rectangle (xy : box) (fill : color)
| Line (p1 p2 : Z * Z) (fill : color) (width : Z)
| Ellipse (xy : box) (fill outline : option color) (width : Z).

(** An image object: the arguments of [Image.new] and the calls drawn on
    it so far. *)
Record image := Image {
  mode : string;
  width : Z;
  height : Z;
  background : color;
  drawn : list draw_op
}.

Global Instance image_inhabited : Inhabited image :=
  populate (Image "" 0 0 [] []).

(** A reference to an image object. *)
Abbreviation ref := nat.

(** [ImageDraw.Draw(img, mode)]: a handle that draws into [img]. *)
Record ImageDraw := Draw { im : ref; draw_mode : string }.

(** ** Files and standard output *)

Inductive directory := SCRIPT_DIR.

(** [os.path.join(dir, name)]. *)
Record path := os_path_join { dirname : directory; basename : string }.

(** The lines the script prints; the two f-strings keep their holes. *)
Inductive message :=
| Text (s : string)
| Created (p : path)
| CreatedSizes (p : path) (n : nat) (sizes : list Z).

(** What the run does to the outside: [im.save(path, format, sizes=...,
    append_images=...)] with the content of the images at that moment,
    and [print]. *)
Inductive event :=
| Saved (p : path) (format : string) (img : image)
       (sizes : option (list (Z * Z))) (append_images : list image)
| Printed (m : message).

(** ** The interpreter state and its monad *)

Record world := World {
  heap : list image;   (* image objects, by reference *)
  out : list event     (* files written and lines printed, oldest first *)
}.

Definition empty_world : world := World [] [].

Inductive exn := KeyError (key : string) | IndexError.

Inductive result (A : Type) :=
| Ok (a : A)
| Raise (e : exn).
Arguments Ok {A} a.
Arguments Raise {A} e.

Definition M (A : Type) : Type := world -> world * result A.

Global Instance M_ret : MRet M := fun A a w => (w, Ok a).

Global Instance M_bind : MBind M := fun A B k c w =>
  match c w with
  | (w', Ok a) => k a w'
  | (w', Raise e) => (w', Raise e)
  end.

(** A [for] loop over a list. *)
Fixpoint for_ {A : Type} (l : list A) (body : A -> M unit) : M unit :=
  match l with
  | [] => mret tt
  | x :: l' => body x ;; for_ l' body
  end.

(** [d[key]] on a dict. *)
Definition getitem {V : Type} (d : gmap string V) (key : string) : M V :=
  fun w => match d !! key with
           | Some v => (w, Ok v)
           | None => (w, Raise (KeyError key))
           end.

(** [l[i]] on a list. *)
Definition index {A : Type} (l : list A) (i : nat) : M A :=
  fun w => match l !! i with
           | Some v => (w, Ok v)
           | None => (w, Raise IndexError)
           end.

Definition print (m : message) : M unit :=
  fun w => (World (heap w) (out w ++ [Printed m]), Ok tt).

(** ** Pillow calls *)

(** [Image.new(mode, (w, h), color)]: a fresh object. *)
Definition Image_new (md : string) (wh : Z * Z) (c : color) : M ref :=
  fun w => (World (heap w ++ [Image md (fst wh) (snd wh) c []]) (out w),
            Ok (length (heap w))).

Definition ImageDraw_Draw (img : ref) (md : string) : ImageDraw :=
  Draw img md.

Definition paint (ops : list draw_op) (i : image) : image :=
  Image (mode i) (width i) (height i) (background i) (drawn i ++ ops).

(** A drawing call mutates the image behind the handle. *)
Definition draw_call (draw : ImageDraw) (op : draw_op) : M unit :=
  fun w => (World (alter (paint [op]) (im draw) (heap w)) (out w), Ok tt).

Definition rounded_rectangle (draw : ImageDraw) (xy : box) (radius : Z)
    (fill : color) : M unit :=
  draw_call draw (RoundedRectangle xy radius fill).

Definition rectangle (draw : ImageDraw) (xy : box) (fill : color) : M unit :=
  draw_call draw (Rectangle xy fill).

Definition line (draw : ImageDraw) (p1 p2 : Z * Z) (fill : color)
    (width : Z) : M unit :=
  draw_call draw (Line p1 p2 fill width).

Definition ellipse (draw : ImageDraw) (xy : box) (fill outline : option color)
    (width : Z) : M unit :=
  draw_call draw (Ellipse xy fill outline width).

(** [im.save(path, format, sizes=..., append_images=...)]. *)
Definition save (img : ref) (p : path) (format : string)
    (sizes : option (list (Z * Z))) (append_images : list ref) : M unit :=
  fun w => (World (heap w)
                  (out w ++ [Saved p format (heap w !!! img) sizes
                                   ((fun r => heap w !!! r) <$> append_images)]),
            Ok tt).

(** ** The script *)

(** *** Colour palettes *)

Definition DARK : gmap string color := list_to_map [
  ("bg", [12; 26; 14]);
  ("card", [26; 46; 28]);
  ("green", [74; 222; 128]);
  ("earth", [196; 167; 125]);
  ("sage", [156; 163; 137]);
  ("line_green", [74; 222; 128; 89]);
  ("line_earth", [196; 167; 125; 89]);
  ("line_faint", [74; 222; 128; 18]);
  ("ring", [74; 222; 128; 25]);
  ("sage_dim", [156; 163; 137; 127])
]%string.

Definition LIGHT : gmap string color := list_to_map [
  ("bg", [245; 245; 240]);
  ("card", [245; 245; 240]);
  ("green", [22; 163; 74]);
  ("earth", [146; 115; 78]);
  ("sage", [107; 122; 86]);
  ("line_green", [22; 101; 52; 102]);
  ("line_earth", [146; 116; 78; 102]);
  ("line_faint", [22; 101; 52; 18]);
  ("ring", [22; 101; 52; 25]);
  ("sage_dim", [100; 116; 80; 127])
]%string.

(** *** The helpers nested in [draw_icon]

    They close over the scale factor [s] and the handle [draw]. *)

Section closures.
Variable s : Q.
Variable draw : ImageDraw.

Definition sc (x y : Q) : Z * Z := (int (x * s), int (y * s)).

Definition lw (w : Q) : Z := Z.max 1 (int (w * s)).

Definition draw_line (x1 y1 x2 y2 : Q) (color : color) (width : Q) : M unit :=
  line draw (sc x1 y1) (sc x2 y2) color (lw width).

Definition draw_node (cx cy outer_r inner_r : Q)
    (stroke_color fill_color bg_color : color) (stroke_w : Q) : M unit :=
  let '(ox, oy) := sc cx cy in
  (* Outer circle (filled bg + stroke) *)
  let or_px := Z.max 1 (int (outer_r * s)) in
  let ir_px := Z.max 1 (int (inner_r * s)) in
  let sw := Z.max 1 (int (stroke_w * s)) in
  ellipse draw (ox - or_px, oy - or_px, ox + or_px, oy + or_px)
          (Some bg_color) (Some stroke_color) sw;;
  (* Inner dot *)
  if 0 <? ir_px then
    ellipse draw (ox - ir_px, oy - ir_px, ox + ir_px, oy + ir_px)
            (Some fill_color) None 1
  else mret tt.
End closures.

(** *** [draw_icon(size, palette, rounded_bg)] *)

Definition draw_icon (size : Z) (palette : gmap string color)
    (rounded_bg : bool) : M ref :=
  img ← Image_new "RGBA" (size, size) [0; 0; 0; 0];
  let draw := ImageDraw_Draw img "RGBA" in
  let s := (inject_Z size / 256)%Q in
  (* Background *)
  (if rounded_bg then
     let r := int (32 * s) in
     let r := if r <? 2 then 2 else r in
     (fill ← getitem palette "bg";
      rounded_rectangle draw (0, 0, size - 1, size - 1) r fill)
   else
     (fill ← getitem palette "bg";
      rectangle draw (0, 0, size - 1, size - 1) fill));;
  (* Skip subtle details at very small sizes *)
  let show_details := 32 <=? size in
  let show_satellites := 48 <=? size in
  let show_ring := 64 <=? size in
  (* Outer ring *)
  (if show_ring then
     let '(cx, cy) := sc s 128 128 in
     let r := int (114 * s) in
     (outline ← getitem palette "ring";
      ellipse draw (cx - r, cy - r, cx + r, cy + r) None (Some outline) (lw s 2))
   else mret tt);;
  (* Trunk *)
  (c ← getitem palette "line_green"; draw_line s draw 128 200 128 132 c 5);;
  (* Main branches *)
  (c ← getitem palette "line_green"; draw_line s draw 128 132 72 88 c 4.5);;
  (c ← getitem palette "line_green"; draw_line s draw 128 132 184 88 c 4.5);;
  (* Leaf branches *)
  (c ← getitem palette "line_earth"; draw_line s draw 72 88 44 56 c 3.5);;
  (c ← getitem palette "line_earth"; draw_line s draw 72 88 100 56 c 3.5);;
  (c ← getitem palette "line_earth"; draw_line s draw 184 88 156 56 c 3.5);;
  (c ← getitem palette "line_earth"; draw_line s draw 184 88 212 56 c 3.5);;
  (* Discovery links *)
  (if show_details then
     (c ← getitem palette "line_faint"; draw_line s draw 100 56 156 56 c 2)
   else mret tt);;
  (* Satellite lines *)
  (if show_satellites then
     (sage ← getitem palette "sage";
      let sage_line := take 3%nat sage ++ [38] in
      draw_line s draw 128 132 96 156 sage_line 2;;
      draw_line s draw 128 132 164 152 sage_line 2)
   else mret tt);;
  (* Leaf device nodes (earth) *)
  for_ [(44, 56); (100, 56); (156, 56); (212, 56)]%Q (fun '(cx, cy) =>
    stroke ← getitem palette "earth";
    fill ← getitem palette "earth";
    bg ← getitem palette "card";
    draw_node s draw cx cy 10 4.5 stroke fill bg 3);;
  (* Subnet gateway nodes (green) *)
  for_ [(72, 88); (184, 88)]%Q (fun '(cx, cy) =>
    stroke ← getitem palette "green";
    fill ← getitem palette "green";
    bg ← getitem palette "card";
    draw_node s draw cx cy 13 6 stroke fill bg 4);;
  (* Junction node *)
  (stroke ← getitem palette "green";
   fill ← getitem palette "green";
   bg ← getitem palette "card";
   draw_node s draw 128 132 15 7.5 stroke fill bg 4);;
  (* Satellite nodes (sage) *)
  (if show_satellites then
     for_ [(96, 156); (164, 152)]%Q (fun '(cx, cy) =>
       stroke ← getitem palette "sage_dim";
       fill ← getitem palette "sage";
       bg ← getitem palette "card";
       draw_node s draw cx cy 7 3 stroke fill bg 2.5)
   else mret tt);;
  (* Root server node (glow ring + node) *)
  (if show_ring then
     let '(ox, oy) := sc s 128 200 in
     let gr := int (21 * s) in
     (outline ← getitem palette "ring";
      ellipse draw (ox - gr, oy - gr, ox + gr, oy + gr) None (Some outline) (lw s 2))
   else mret tt);;
  (stroke ← getitem palette "green";
   fill ← getitem palette "green";
   bg ← getitem palette "card";
   draw_node s draw 128 200 18 9 stroke fill bg 5);;
  mret img.

(** *** [generate_ico(filename, palette)] *)

(** A [for] loop whose body updates a local variable. *)
Fixpoint for_acc {A S : Type} (l : list A) (body : S -> A -> M S) (acc : S)
    : M S :=
  match l with
  | [] => mret acc
  | x :: l' => acc' ← body acc x; for_acc l' body acc'
  end.

Definition generate_ico (filename : string) (palette : gmap string color)
    : M unit :=
  let sizes := [16; 24; 32; 48; 64; 128; 256] in
  images ← for_acc sizes (fun images sz =>
      img ← draw_icon sz palette (32 <=? sz);
      (* Convert to RGBA for ICO *)
      mret (images ++ [img])) [];
  (* Save ICO (Pillow handles multi-size automatically) *)
  let path := os_path_join SCRIPT_DIR filename in
  first ← index images 0;
  save first path "ICO" (Some ((fun sz => (sz, sz)) <$> sizes))
       (drop 1 images);;
  print (CreatedSizes path (length sizes) sizes).

(** *** [generate_pngs(prefix, palette)] *)

Definition generate_pngs (prefix : string) (palette : gmap string color)
    : M unit :=
  for_ [32; 64; 128; 256; 512] (fun sz =>
    img ← draw_icon sz palette true;
    let path := os_path_join SCRIPT_DIR (prefix ++ "-" ++ str sz ++ ".png") in
    save img path "PNG" None [];;
    print (Created path)).

(** *** The entry point: the body under [if __name__ == "__main__"] *)

Definition nl : string := String (Ascii.ascii_of_nat 10) "".

Definition main : M unit :=
  print (Text ("Generating SubNetree icon files..." ++ nl));;
  (* ICO files for Windows executables *)
  generate_ico "subnetree.ico" DARK;;
  generate_ico "subnetree-light.ico" LIGHT;;
  print (Text "");;
  (* PNG files for various uses *)
  generate_pngs "icon-dark" DARK;;
  generate_pngs "icon-light" LIGHT;;
  print (Text (nl ++ "Done!")).

(** * Descriptions used in the statements *)

(** ** What a computation does to one image *)

(** [paints l c ops r]: from every world, [c] makes the drawing calls
    [ops] on the image behind [l], touches nothing else, and ends in
    [r]. *)
Definition paints {A : Type} (l : ref) (c : M A) (ops : list draw_op)
    (r : result A) : Prop :=
  forall w, c w = (World (alter (paint ops) l (heap w)) (out w), r).

(** The outer circle of one [draw_node]. *)
Definition node_outer (s : Q) (cx cy outer_r : Q)
    (stroke_color bg_color : color) (stroke_w : Q) : draw_op :=
  let ox := int (cx * s) in
  let oy := int (cy * s) in
  let or_px := Z.max 1 (int (outer_r * s)) in
  Ellipse (ox - or_px, oy - or_px, ox + or_px, oy + or_px)
          (Some bg_color) (Some stroke_color) (Z.max 1 (int (stroke_w * s))).

(** The inner dot of one [draw_node]. *)
Definition node_inner (s : Q) (cx cy inner_r : Q) (fill_color : color)
    : draw_op :=
  let ox := int (cx * s) in
  let oy := int (cy * s) in
  let ir_px := Z.max 1 (int (inner_r * s)) in
  Ellipse (ox - ir_px, oy - ir_px, ox + ir_px, oy + ir_px)
          (Some fill_color) None 1.

(** The calls of one [draw_node].  The guard on the inner dot tests a
    radius that is at least 1, so both calls are always made. *)
Definition node_calls (s : Q) (cx cy outer_r inner_r : Q)
    (stroke_color fill_color bg_color : color) (stroke_w : Q) : list draw_op :=
  [node_outer s cx cy outer_r stroke_color bg_color stroke_w;
   node_inner s cx cy inner_r fill_color].

(** ** The drawing as a table

    The calls of [draw_icon] after the background, in source order, each
    with the condition on [size] under which the source makes it. *)

Inductive layer := Base | Details | Satellites | Ring.

Definition shown (size : Z) (ly : layer) : bool :=
  match ly with
  | Base => true
  | Details => 32 <=? size
  | Satellites => 48 <=? size
  | Ring => 64 <=? size
  end.

(** Where a line takes its colour from: a palette entry, or the colour
    [draw_icon] computes from the [sage] entry. *)
Inductive ink := Role (key : string) | SageLine.

Inductive element :=
| Segment (x1 y1 x2 y2 : Q) (c : ink) (w : Q)
| Node (cx cy outer_r inner_r : Q) (stroke fill bg : string) (stroke_w : Q)
| Circle (cx cy r : Q) (outline : string) (w : Q).

Definition scene : list (layer * element) := [
  (Ring, Circle 128 128 114 "ring" 2);
  (Base, Segment 128 200 128 132 (Role "line_green") 5);
  (Base, Segment 128 132 72 88 (Role "line_green") 4.5);
  (Base, Segment 128 132 184 88 (Role "line_green") 4.5);
  (Base, Segment 72 88 44 56 (Role "line_earth") 3.5);
  (Base, Segment 72 88 100 56 (Role "line_earth") 3.5);
  (Base, Segment 184 88 156 56 (Role "line_earth") 3.5);
  (Base, Segment 184 88 212 56 (Role "line_earth") 3.5);
  (Details, Segment 100 56 156 56 (Role "line_faint") 2);
  (Satellites, Segment 128 132 96 156 SageLine 2);
  (Satellites, Segment 128 132 164 152 SageLine 2);
  (Base, Node 44 56 10 4.5 "earth" "earth" "card" 3);
  (Base, Node 100 56 10 4.5 "earth" "earth" "card" 3);
  (Base, Node 156 56 10 4.5 "earth" "earth" "card" 3);
  (Base, Node 212 56 10 4.5 "earth" "earth" "card" 3);
  (Base, Node 72 88 13 6 "green" "green" "card" 4);
  (Base, Node 184 88 13 6 "green" "green" "card" 4);
  (Base, Node 128 132 15 7.5 "green" "green" "card" 4);
  (Satellites, Node 96 156 7 3 "sage_dim" "sage" "card" 2.5);
  (Satellites, Node 164 152 7 3 "sage_dim" "sage" "card" 2.5);
  (Ring, Circle 128 200 21 "ring" 2);
  (Base, Node 128 200 18 9 "green" "green" "card" 5)
]%Q.

Definition elements_at (size : Z) : list element :=
  List.map snd (List.filter (fun p => shown size (fst p)) scene).

(** The scale factor of [draw_icon]. *)
Definition scale (size : Z) : Q := inject_Z size / 256.

Definition ink_color (palette : gmap string color) (c : ink) : color :=
  match c with
  | Role key => palette !!! key
  | SageLine => take 3%nat (palette !!! "sage") ++ [38]
  end.

(** The calls one element stands for at scale [s]. *)
Definition realise (s : Q) (palette : gmap string color) (e : element)
    : list draw_op :=
  match e with
  | Segment x1 y1 x2 y2 c w =>
      [Line (sc s x1 y1) (sc s x2 y2) (ink_color palette c) (lw s w)]
  | Node cx cy outer_r inner_r stroke fill bg stroke_w =>
      node_calls s cx cy outer_r inner_r
                 (palette !!! stroke) (palette !!! fill) (palette !!! bg) stroke_w
  | Circle cx cy r outline w =>
      let x := int (cx * s) in
      let y := int (cy * s) in
      let r := int (r * s) in
      [Ellipse (x - r, y - r, x + r, y + r) None (Some (palette !!! outline))
               (lw s w)]
  end.

Definition background_call (size : Z) (palette : gmap string color)
    (rounded_bg : bool) : draw_op :=
  if rounded_bg then
    let r := int (32 * scale size) in
    RoundedRectangle (0, 0, size - 1, size - 1) (if r <? 2 then 2 else r)
                     (palette !!! "bg")
  else Rectangle (0, 0, size - 1, size - 1) (palette !!! "bg").

(** The image [draw_icon] builds when the palette has every entry. *)
Definition icon (size : Z) (palette : gmap string color) (rounded_bg : bool)
    : image :=
  Image "RGBA" size size [0; 0; 0; 0]
        (background_call size palette rounded_bg
           :: flat_map (realise (scale size) palette) (elements_at size)).

(** The keys [draw_icon] reads. *)
Definition roles : list string :=
  ["bg"; "card"; "green"; "earth"; "sage"; "line_green"; "line_earth";
   "line_faint"; "ring"; "sage_dim"].

(** A palette in the sense of the specification: every role has a colour. *)
Definition is_palette (palette : gmap string color) : Prop :=
  Forall (fun key => is_Some (palette !! key)) roles.

(** ** Drawing with any palette

    [draws P c]: whatever the handle and the world, [c] makes the same
    drawing calls, all satisfying [P], on the image behind the handle, and
    ends in the same result; a missing palette entry ends it early. *)

Definition draws {A : Type} (P : draw_op -> Prop) (c : ref -> M A) : Prop :=
  exists ops r, Forall P ops /\ forall l, paints l (c l) ops r.

(** The same for the body of [draw_icon], which ends by returning the
    reference it drew on. *)
Definition draws_and_returns (P : draw_op -> Prop) (c : ref -> M ref) : Prop :=
  exists ops (r : result unit), Forall P ops /\
    forall l, paints l (c l) ops (match r with Ok _ => Ok l | Raise e => Raise e end).

(** *** Every line width and every circle radius is at least one pixel *)

(** What a call asks of Pillow: a line of width [w >= 1]; a circle given
    by its bounding box, of radius [r >= 1] and outline width [w >= 1]; a
    rounded rectangle of corner radius at least 2. *)
Definition well_sized (op : draw_op) : Prop :=
  match op with
  | Line _ _ _ w => 1 <= w
  | Ellipse xy _ _ w =>
      1 <= w /\ exists cx cy r, xy = (cx - r, cy - r, cx + r, cy + r) /\ 1 <= r
  | RoundedRectangle _ r _ => 2 <= r
  | Rectangle _ _ => True
  end.

(** ** What a caller of [draw_icon] gets *)

(** The content of the image a call returns, or the exception. *)
Definition returned (wr : world * result ref) : result image :=
  match wr with
  | (w, Ok r) => Ok (heap w !!! r)
  | (_, Raise e) => Raise e
  end.

(** [draw_icon] called first thing in a run. *)
Definition render (size : Z) (palette : gmap string color) (rounded_bg : bool)
    : result image :=
  returned (draw_icon size palette rounded_bg empty_world).

(** *** The background *)

(** Python's [round] on a float: to the nearest integer, ties to even. *)
Definition round_nearest (q : Q) : Z :=
  let n2 := 2 * Qnum q + Z.pos (Qden q) in
  let d2 := 2 * Z.pos (Qden q) in
  let f := n2 / d2 in
  if (n2 mod d2 =? 0) && Z.odd f then f - 1 else f.

(** The corner radius as the specification words it:
    max(2, round(32 * scale)). *)
Definition corner_radius_as_stated (size : Z) : Z :=
  Z.max 2 (round_nearest (32 * scale size)).

(** The background call as the specification words it. *)
Definition background_as_stated (size : Z) (palette : gmap string color)
    (rounded_bg : bool) : draw_op :=
  if rounded_bg then
    RoundedRectangle (0, 0, size - 1, size - 1) (corner_radius_as_stated size)
                     (palette !!! "bg")
  else Rectangle (0, 0, size - 1, size - 1) (palette !!! "bg").

(** Rectangles are drawn for the background only. *)
Definition is_rectangle (op : draw_op) : bool :=
  match op with
  | RoundedRectangle _ _ _ | Rectangle _ _ => true
  | _ => false
  end.

(** *** Detail layers *)

(** The base layer: trunk, two main branches, four leaf branches, four
    leaf nodes, two gateway nodes, the junction node and the root node. *)
Definition base_layer : list element := [
  Segment 128 200 128 132 (Role "line_green") 5;
  Segment 128 132 72 88 (Role "line_green") 4.5;
  Segment 128 132 184 88 (Role "line_green") 4.5;
  Segment 72 88 44 56 (Role "line_earth") 3.5;
  Segment 72 88 100 56 (Role "line_earth") 3.5;
  Segment 184 88 156 56 (Role "line_earth") 3.5;
  Segment 184 88 212 56 (Role "line_earth") 3.5;
  Node 44 56 10 4.5 "earth" "earth" "card" 3;
  Node 100 56 10 4.5 "earth" "earth" "card" 3;
  Node 156 56 10 4.5 "earth" "earth" "card" 3;
  Node 212 56 10 4.5 "earth" "earth" "card" 3;
  Node 72 88 13 6 "green" "green" "card" 4;
  Node 184 88 13 6 "green" "green" "card" 4;
  Node 128 132 15 7.5 "green" "green" "card" 4;
  Node 128 200 18 9 "green" "green" "card" 5
]%Q.

(** Drawn from size 32 on. *)
Definition discovery_link : element :=
  Segment 100 56 156 56 (Role "line_faint") 2.

(** Drawn from size 48 on. *)
Definition satellites : list element := [
  Segment 128 132 96 156 SageLine 2;
  Segment 128 132 164 152 SageLine 2;
  Node 96 156 7 3 "sage_dim" "sage" "card" 2.5;
  Node 164 152 7 3 "sage_dim" "sage" "card" 2.5
]%Q.

(** Drawn from size 64 on: the outer ring and the glow ring of the root. *)
Definition rings : list element := [
  Circle 128 128 114 "ring" 2;
  Circle 128 200 21 "ring" 2
]%Q.

(** *** Nodes *)

(** The calls of one node as the specification words them: the outer
    circle, and the inner dot unless its scaled radius is 0. *)
Definition node_calls_as_stated (s : Q) (cx cy outer_r inner_r : Q)
    (stroke_color fill_color bg_color : color) (stroke_w : Q) : list draw_op :=
  let ox := int (cx * s) in
  let oy := int (cy * s) in
  let ir_px := int (inner_r * s) in
  node_outer s cx cy outer_r stroke_color bg_color stroke_w
  :: (if ir_px =? 0 then []
      else [Ellipse (ox - ir_px, oy - ir_px, ox + ir_px, oy + ir_px)
                    (Some fill_color) None 1]).

Definition realise_as_stated (s : Q) (palette : gmap string color)
    (e : element) : list draw_op :=
  match e with
  | Node cx cy outer_r inner_r stroke fill bg stroke_w =>
      node_calls_as_stated s cx cy outer_r inner_r
        (palette !!! stroke) (palette !!! fill) (palette !!! bg) stroke_w
  | _ => realise s palette e
  end.

(** *** The satellite lines *)

(** The inner dots as the specification words them: smaller than the
    outer circle they are drawn over.  An outer circle is a filled and
    outlined ellipse, a dot a filled ellipse without outline. *)
Definition dots_smaller_as_stated (img : image) : Prop :=
  forall before after x0 y0 x1 y1 bg stroke sw x0' y0' x1' y1' fill w,
    drawn img =
      before
      ++ [Ellipse (x0, y0, x1, y1) (Some bg) (Some stroke) sw;
          Ellipse (x0', y0', x1', y1') (Some fill) None w]
      ++ after ->
    x1' - x0' < x1 - x0.


(** ** The exporters *)

(** [effect c imgs evs]: from every world, [c] allocates the images
    [imgs], emits the events [evs], and returns normally. *)
Definition effect (c : M unit) (imgs : list image) (evs : list event) : Prop :=
  forall w, c w = (World (heap w ++ imgs) (out w ++ evs), Ok tt).

(** The events of a computation run first thing. *)
Definition events_of (c : M unit) : list event := out (fst (c empty_world)).

(** *** PNG sets *)

(** The file of size [sz] in a PNG set. *)
Definition png_path (prefix : string) (sz : Z) : path :=
  os_path_join SCRIPT_DIR (prefix ++ "-" ++ str sz ++ ".png").

(** The events of one PNG-set export. *)
Definition png_events (prefix : string) (palette : gmap string color)
    : list event :=
  flat_map (fun sz => [Saved (png_path prefix sz) "PNG" (icon sz palette true)
                             None [];
                       Printed (Created (png_path prefix sz))])
           [32; 64; 128; 256; 512].

(** *** ICO files *)

Definition ico_sizes : list Z := [16; 24; 32; 48; 64; 128; 256].

(** The images of one ICO export. *)
Definition ico_frames (palette : gmap string color) : list image :=
  (fun sz => icon sz palette (32 <=? sz)) <$> ico_sizes.

(** The events of one ICO export. *)
Definition ico_events (filename : string) (palette : gmap string color)
    : list event :=
  [Saved (os_path_join SCRIPT_DIR filename) "ICO"
         (icon 16 palette false)
         (Some [(16, 16); (24, 24); (32, 32); (48, 48); (64, 64);
                (128, 128); (256, 256)])
         (drop 1 (ico_frames palette));
   Printed (CreatedSizes (os_path_join SCRIPT_DIR filename) 7 ico_sizes)].

(** Pillow's ICO writer, which is not part of the script.  Its
    documentation of the [sizes] parameter: "any sizes bigger than the
    original size or 256 will be ignored", the original being the image
    [save] is called on.  The requested sizes the writer keeps: *)
Definition ico_kept_sizes (original : image) (sizes : list (Z * Z))
    : list (Z * Z) :=
  List.filter (fun wh => (fst wh <=? width original)
                         && (snd wh <=? height original)
                         && (fst wh <=? 256) && (snd wh <=? 256)) sizes.

(** What the frame of size [sz] in an export is: the image [draw_icon]
    renders at that size with that background, [sz] by [sz] pixels, whose
    first drawing call fills the background. *)
Definition frame_of (palette : gmap string color) (rounded : bool) (sz : Z)
    (img : image) : Prop :=
  render sz palette rounded = Ok img /\
  width img = sz /\ height img = sz /\
  exists bg ops,
    palette !! "bg" = Some bg /\
    drawn img =
      (if rounded then
         RoundedRectangle (0, 0, sz - 1, sz - 1) (Z.max 2 (sz / 8)) bg
       else Rectangle (0, 0, sz - 1, sz - 1) bg) :: ops.

(** ** The entry point *)

(** The files an event list writes: name, format, and the widths of the
    images given to [save]. *)
Definition saved_files (evs : list event) : list (string * string * list Z) :=
  flat_map (fun e => match e with
                     | Saved p format img _ more =>
                         [(basename p, format, width <$> img :: more)]
                     | Printed _ => []
                     end) evs.

(** The run as the specification words it: the two icon exports, then
    four PNG-set exports, each with the dark or the light palette. *)
Definition four_png_sets_as_stated : Prop :=
  exists p1 p2 p3 p4 pal1 pal2 pal3 pal4,
    Forall (fun pal => pal = DARK \/ pal = LIGHT) [pal1; pal2; pal3; pal4] /\
    saved_files (events_of main) =
    saved_files (events_of (generate_ico "subnetree.ico" DARK;;
                            generate_ico "subnetree-light.ico" LIGHT;;
                            generate_pngs p1 pal1;;
                            generate_pngs p2 pal2;;
                            generate_pngs p3 pal3;;
                            generate_pngs p4 pal4)).

(** ** Which palette entries a call needs *)

(** Whether [palette[key]] raises. *)
Definition missing (palette : gmap string color) (key : string) : bool :=
  match palette !! key with
  | Some _ => false
  | None => true
  end.

(** The first of [keys] that the palette lacks. *)
Definition first_missing (palette : gmap string color) (keys : list string)
    : option string :=
  List.find (missing palette) keys.

(** How a computation that looks up [keys] in this order, and does nothing
    else that can raise, ends. *)
Definition outcome_of {A : Type} (palette : gmap string color)
    (keys : list string) (a : A) : result A :=
  match first_missing palette keys with
  | None => Ok a
  | Some key => Raise (KeyError key)
  end.

(** The keys [draw_icon] looks up at a size, in the order of the source.
    Both branches of the background look up [bg]. *)
Definition lookups (size : Z) : list string :=
  ["bg"]
  ++ (if 64 <=? size then ["ring"] else [])
  ++ ["line_green"; "line_green"; "line_green";
      "line_earth"; "line_earth"; "line_earth"; "line_earth"]
  ++ (if 32 <=? size then ["line_faint"] else [])
  ++ (if 48 <=? size then ["sage"] else [])
  ++ ["earth"; "earth"; "card"; "earth"; "earth"; "card";
      "earth"; "earth"; "card"; "earth"; "earth"; "card"]
  ++ ["green"; "green"; "card"; "green"; "green"; "card"]
  ++ ["green"; "green"; "card"]
  ++ (if 48 <=? size then ["sage_dim"; "sage"; "card"; "sage_dim"; "sage"; "card"]
      else [])
  ++ (if 64 <=? size then ["ring"] else [])
  ++ ["green"; "green"; "card"].

(** The entries a palette must have for [draw_icon] at a size. *)
Definition required (size : Z) : list string :=
  ["bg"; "line_green"; "line_earth"; "earth"; "card"; "green"]
  ++ (if 32 <=? size then ["line_faint"] else [])
  ++ (if 48 <=? size then ["sage"; "sage_dim"] else [])
  ++ (if 64 <=? size then ["ring"] else []).

(** [runs palette l c keys ops a]: [c] looks up [keys] in the palette, in
    this order; it raises at the first one missing; if none is, it makes
    the calls [ops] on the image behind [l] and returns [a]. *)
Definition runs {A : Type} (palette : gmap string color) (l : ref) (c : M A)
    (keys : list string) (ops : list draw_op) (a : A) : Prop :=
  exists ops', paints l c ops' (outcome_of palette keys a) /\
               (first_missing palette keys = None -> ops' = ops).

(** ** Staying on the canvas *)

(** A call that stays on a canvas of [size] by [size] pixels: a background
    that covers exactly the canvas, with corners that fit; a line between
    two pixels of the canvas; an ellipse whose bounding box is well ordered
    and within the canvas. *)
Definition in_canvas (size : Z) (op : draw_op) : Prop :=
  match op with
  | RoundedRectangle xy r _ => xy = (0, 0, size - 1, size - 1) /\ 2 * r <= size
  | Rectangle xy _ => xy = (0, 0, size - 1, size - 1)
  | Line (x1, y1) (x2, y2) _ _ =>
      0 <= x1 <= size - 1 /\ 0 <= y1 <= size - 1 /\
      0 <= x2 <= size - 1 /\ 0 <= y2 <= size - 1
  | Ellipse (x0, y0, x1, y1) _ _ _ =>
      0 <= x0 <= x1 /\ x1 <= size - 1 /\ 0 <= y0 <= y1 /\ y1 <= size - 1
  end.

(** A call whose stroke is one pixel wide: the width of a line, the
    outline width of an ellipse. *)
Definition one_pixel_stroke (op : draw_op) : Prop :=
  match op with
  | Line _ _ _ w => w = 1
  | Ellipse _ _ _ w => w = 1
  | _ => True
  end.

(** * Proofs *)

(** ** How a computation acts on one image *)

Lemma paint_nil (i : image) : paint [] i = i.
Proof. destruct i. unfold paint. simpl. by rewrite app_nil_r. Qed.

Lemma paint_paint (o1 o2 : list draw_op) (i : image) :
  paint o2 (paint o1 i) = paint (o1 ++ o2) i.
Proof. unfold paint. simpl. by rewrite app_assoc. Qed.

Lemma alter_paint_nil (l : ref) (h : list image) : alter (paint []) l h = h.
Proof. apply list_alter_id. intros. apply paint_nil. Qed.

Lemma alter_paint_paint (o1 o2 : list draw_op) (l : ref) (h : list image) :
  alter (paint o2) l (alter (paint o1) l h) = alter (paint (o1 ++ o2)) l h.
Proof.
  rewrite list_alter_alter_eq. apply list_alter_ext; [|done].
  intros. apply paint_paint.
Qed.

Lemma alter_fresh (f : image -> image) (h : list image) (i : image) :
  alter f (length h) (h ++ [i]) = h ++ [f i].
Proof.
  replace (length h) with (length h + 0)%nat by lia.
  by rewrite alter_app_r.
Qed.

Section paints_rules.
Context {A B : Type} (l : ref).

Lemma paints_ret (a : A) : paints l (mret a) [] (Ok a).
Proof. intros [h o]. unfold mret, M_ret. simpl. by rewrite alter_paint_nil. Qed.

Lemma paints_bind (c : M A) (k : A -> M B) o1 o2 a r :
  paints l c o1 (Ok a) -> paints l (k a) o2 r ->
  paints l (c ≫= k) (o1 ++ o2) r.
Proof.
  intros Hc Hk w. unfold mbind, M_bind. rewrite Hc, Hk. simpl.
  by rewrite alter_paint_paint.
Qed.

Lemma paints_raise (c : M A) (k : A -> M B) o1 e :
  paints l c o1 (Raise e) -> paints l (c ≫= k) o1 (Raise e).
Proof. intros Hc w. unfold mbind, M_bind. by rewrite Hc. Qed.

Lemma paints_getitem (d : gmap string A) key v :
  d !! key = Some v -> paints l (getitem d key) [] (Ok v).
Proof.
  intros Hv [h o]. unfold getitem. rewrite Hv. simpl.
  by rewrite alter_paint_nil.
Qed.

Lemma paints_getitem_missing (d : gmap string A) key :
  d !! key = None -> paints l (getitem d key) [] (Raise (KeyError key)).
Proof.
  intros Hv [h o]. unfold getitem. rewrite Hv. simpl.
  by rewrite alter_paint_nil.
Qed.

Lemma paints_if (b : bool) (c1 c2 : M A) o1 o2 r :
  paints l c1 o1 r -> paints l c2 o2 r ->
  paints l (if b then c1 else c2) (if b then o1 else o2) r.
Proof. by destruct b. Qed.

End paints_rules.

Lemma paints_draw_call (draw : ImageDraw) (op : draw_op) :
  paints (im draw) (draw_call draw op) [op] (Ok tt).
Proof. by intros w. Qed.

Lemma max_1_pos (z : Z) : (0 <? Z.max 1 z) = true.
Proof. apply Z.ltb_lt. lia. Qed.

Lemma paints_draw_line (s : Q) (draw : ImageDraw) x1 y1 x2 y2 c w :
  paints (im draw) (draw_line s draw x1 y1 x2 y2 c w)
         [Line (sc s x1 y1) (sc s x2 y2) c (lw s w)] (Ok tt).
Proof. apply paints_draw_call. Qed.

Lemma paints_draw_node (s : Q) (draw : ImageDraw) cx cy outer_r inner_r
    stroke fill bg stroke_w :
  paints (im draw) (draw_node s draw cx cy outer_r inner_r stroke fill bg stroke_w)
         (node_calls s cx cy outer_r inner_r stroke fill bg stroke_w) (Ok tt).
Proof.
  unfold draw_node, node_calls, node_outer, node_inner, sc. cbv zeta.
  rewrite max_1_pos.
  eapply (paints_bind _ _ _ [_] [_]); apply paints_draw_call.
Qed.

(** ** Palettes *)

Lemma is_palette_lookup (palette : gmap string color) (key : string) :
  is_palette palette -> In key roles -> palette !! key = Some (palette !!! key).
Proof.
  intros Hp Hk. apply lookup_lookup_total.
  unfold is_palette in Hp. rewrite List.Forall_forall in Hp. by apply Hp.
Qed.

(** Membership in a list given in full. *)
Ltac in_list := simpl; repeat (first [left; reflexivity | right]).

Lemma DARK_is_palette : is_palette DARK.
Proof.
  unfold is_palette, roles.
  repeat (apply List.Forall_cons; [by vm_compute; eexists|]).
  apply List.Forall_nil.
Qed.

Lemma LIGHT_is_palette : is_palette LIGHT.
Proof.
  unfold is_palette, roles.
  repeat (apply List.Forall_cons; [by vm_compute; eexists|]).
  apply List.Forall_nil.
Qed.

(** ** [draw_icon] with a palette that has every entry *)

Lemma bind_Image_new {B : Type} md wh c (k : ref -> M B) (w : world) :
  (Image_new md wh c ≫= k) w =
  k (length (heap w)) (World (heap w ++ [Image md (fst wh) (snd wh) c []]) (out w)).
Proof. reflexivity. Qed.

Ltac paints_step :=
  lazymatch goal with
  | |- paints _ (mret _) _ _ => apply paints_ret
  | |- paints _ (getitem _ _) _ _ =>
      apply paints_getitem; apply is_palette_lookup;
      [assumption | solve [in_list]]
  | |- paints _ (draw_line _ _ _ _ _ _ _ _) _ _ => apply paints_draw_line
  | |- paints _ (draw_node _ _ _ _ _ _ _ _ _ _) _ _ => apply paints_draw_node
  | |- paints _ (rounded_rectangle _ _ _ _) _ _ => apply paints_draw_call
  | |- paints _ (rectangle _ _ _) _ _ => apply paints_draw_call
  | |- paints _ (ellipse _ _ _ _ _) _ _ => apply paints_draw_call
  | |- paints _ (if _ then _ else _) _ _ => apply paints_if
  | |- paints _ (_ ≫= _) _ _ => eapply paints_bind; [| cbv beta]
  end.

Lemma draw_icon_spec (size : Z) (palette : gmap string color)
    (rounded_bg : bool) :
  is_palette palette ->
  forall w, draw_icon size palette rounded_bg w =
            (World (heap w ++ [icon size palette rounded_bg]) (out w),
             Ok (length (heap w))).
Proof.
  intros Hp w. unfold draw_icon. rewrite bind_Image_new.
  cbv beta iota zeta delta [sc for_ ImageDraw_Draw].
  match goal with |- ?c ?w' = _ =>
    eassert (Hc : paints (length (heap w)) c _ _) end.
  { repeat paints_step. }
  rewrite Hc. clear Hc. simpl heap. simpl out. rewrite alter_fresh.
  do 4 f_equal. unfold icon, paint, elements_at, scale, scene.
  cbn [mode width height background drawn app List.filter shown fst]. f_equal.
  destruct rounded_bg, (64 <=? size), (48 <=? size), (32 <=? size);
    reflexivity.
Qed.

(** ** [draw_icon] with any palette *)

Section draws_rules.
Context {A B : Type} (P : draw_op -> Prop).

Lemma draws_ret (a : A) : draws P (fun _ => mret a).
Proof. exists [], (Ok a). split; [constructor | intros; apply paints_ret]. Qed.

Lemma draws_bind (c : ref -> M A) (k : ref -> A -> M B) :
  draws P c -> (forall a, draws P (fun l => k l a)) ->
  draws P (fun l => c l ≫= k l).
Proof.
  intros (o1 & [a|e] & Ho1 & Hc) Hk.
  - destruct (Hk a) as (o2 & r & Ho2 & Hka).
    exists (o1 ++ o2), r. split; [by apply Forall_app|].
    intros l. by eapply paints_bind.
  - exists o1, (Raise e). split; [done|]. intros l. by apply paints_raise.
Qed.

Lemma draws_getitem (d : gmap string A) (key : string) :
  draws P (fun _ => getitem d key).
Proof.
  destruct (d !! key) as [v|] eqn:Hv.
  - exists [], (Ok v). split; [constructor|]. intros. by apply paints_getitem.
  - exists [], (Raise (KeyError key)). split; [constructor|].
    intros. by apply paints_getitem_missing.
Qed.

Lemma draws_call (md : string) (op : draw_op) :
  P op -> draws P (fun l => draw_call (Draw l md) op).
Proof.
  intros Hop. exists [op], (Ok tt). split; [by repeat constructor|].
  intros l. apply (paints_draw_call (Draw l md)).
Qed.

Lemma draws_if (b : bool) (c1 c2 : ref -> M A) :
  (b = true -> draws P c1) -> (b = false -> draws P c2) ->
  draws P (fun l => if b then c1 l else c2 l).
Proof. destruct b; auto. Qed.

Lemma draws_and_returns_ret : draws_and_returns P (fun l => mret l).
Proof. exists [], (Ok tt). split; [constructor | intros; apply paints_ret]. Qed.

Lemma draws_and_returns_bind (c : ref -> M unit) (k : ref -> M ref) :
  draws P c -> draws_and_returns P k ->
  draws_and_returns P (fun l => c l ≫= fun _ => k l).
Proof.
  intros (o1 & [[]|e] & Ho1 & Hc) (o2 & r & Ho2 & Hk).
  - exists (o1 ++ o2), r. split; [by apply Forall_app|].
    intros l. eapply paints_bind; [apply Hc | apply Hk].
  - exists o1, (Raise e). split; [done|]. intros l. by apply paints_raise.
Qed.

End draws_rules.

Lemma int_scale (x : Q) (size : Z) :
  int (x * (inject_Z size / 256)) = Z.quot (Qnum x * size) (Z.pos (Qden x) * 256).
Proof.
  unfold int. cbn [Qmult Qdiv Qinv inject_Z Qnum Qden]. f_equal; lia.
Qed.

Lemma int_scale_pos (x : Q) (size : Z) :
  Z.pos (Qden x) * 256 <= Qnum x * size -> 1 <= int (x * (inject_Z size / 256)).
Proof.
  intros H. rewrite int_scale. apply Z.quot_le_lower_bound; lia.
Qed.

Ltac well_sized_tac :=
  cbn [well_sized]; unfold lw;
  repeat match goal with
         | H : (_ <=? _) = true |- _ => apply Z.leb_le in H
         | |- _ /\ _ => split
         | |- exists cx cy r, (?x - ?r0, _, _, _) = _ /\ _ =>
             exists x; eexists; exists r0; split; [reflexivity|]
         | |- 1 <= int _ => apply int_scale_pos; cbn [Qnum Qden]
         | |- context [if ?a <? ?b then _ else _] => destruct (Z.ltb_spec a b)
         end;
  lia.

Ltac draws_step :=
  first [ apply draws_ret
        | apply draws_getitem
        | apply draws_call; [well_sized_tac]
        | apply draws_if; intros ?
        | apply draws_bind; [| intros ?] ].

Lemma draw_icon_local (size : Z) (palette : gmap string color)
    (rounded_bg : bool) :
  exists ops (r : result unit), Forall well_sized ops /\
    forall w, draw_icon size palette rounded_bg w =
      (World (heap w ++ [Image "RGBA" size size [0; 0; 0; 0] ops]) (out w),
       match r with Ok _ => Ok (length (heap w)) | Raise e => Raise e end).
Proof.
  unfold draw_icon.
  match goal with |- context [Image_new _ _ _ ≫= ?k] =>
    assert (Hk : draws_and_returns well_sized k) end.
  { cbv beta iota zeta delta [sc for_ ImageDraw_Draw draw_line draw_node
                              rounded_rectangle rectangle line ellipse].
    repeat (apply draws_and_returns_bind; [repeat draws_step|]).
    apply draws_and_returns_ret. }
  destruct Hk as (ops & r & Hops & Hk). exists ops, r. split; [done|].
  intros w. rewrite bind_Image_new, Hk. simpl. by rewrite alter_fresh.
Qed.

(** ** What a caller of [draw_icon] gets *)

Lemma fresh_lookup (h : list image) (i : image) : (h ++ [i]) !!! length h = i.
Proof. by apply list_lookup_total_middle. Qed.

Lemma render_spec (size : Z) (palette : gmap string color) (rounded_bg : bool) :
  is_palette palette ->
  render size palette rounded_bg = Ok (icon size palette rounded_bg).
Proof. intros Hp. unfold render. by rewrite draw_icon_spec. Qed.

(** ** The renderer *)

(** C5.  Rendering is deterministic and depends on nothing but its three
    arguments: from any two states of the run, [draw_icon] with the same
    size, palette and background flag returns images with the same content
    (or raises the same exception); and two calls in a row return two
    distinct objects with the same content, the second call leaving the
    first image as it was. *)
Theorem draw_icon_deterministic (size : Z) (palette : gmap string color)
    (rounded_bg : bool) :
  (forall w1 w2,
     returned (draw_icon size palette rounded_bg w1) =
     returned (draw_icon size palette rounded_bg w2)) /\
  (forall w,
     let '(w1, r1) := draw_icon size palette rounded_bg w in
     let '(w2, r2) := draw_icon size palette rounded_bg w1 in
     match r1, r2 with
     | Ok a, Ok b =>
         a <> b /\ heap w2 !!! a = heap w2 !!! b /\ heap w2 !!! a = heap w1 !!! a
     | Raise e1, Raise e2 => e1 = e2
     | _, _ => False
     end).
Proof.
  destruct (draw_icon_local size palette rounded_bg) as (ops & r & _ & Hrun).
  split.
  - intros w1 w2. rewrite !Hrun. destruct r; simpl; [|done].
    by rewrite !fresh_lookup.
  - intros w. rewrite !Hrun. destruct r; [|done]. simpl.
    rewrite length_app. simpl. split; [lia|].
    replace (length (heap w) + 1)%nat
      with (length (heap w ++ [Image "RGBA" size size [0; 0; 0; 0] ops]))
      by (rewrite length_app; simpl; lia).
    rewrite fresh_lookup.
    rewrite lookup_total_app_l by (rewrite length_app; simpl; lia).
    by rewrite fresh_lookup.
Qed.

(** C6.  For every size of at least 1 and every palette, [draw_icon]
    returns an image of exactly size by size pixels, in mode RGBA, created
    fully transparent: the colour given to [Image.new] is (0, 0, 0, 0), and
    nothing but drawing calls is applied to it afterwards. *)
Theorem draw_icon_canvas (size : Z) (palette : gmap string color)
    (rounded_bg : bool) (w : world) :
  1 <= size -> is_palette palette ->
  exists w' r img,
    draw_icon size palette rounded_bg w = (w', Ok r) /\
    heap w' !! r = Some img /\
    mode img = "RGBA"%string /\ width img = size /\ height img = size /\
    background img = [0; 0; 0; 0] /\
    img = paint (drawn img) (Image "RGBA" size size [0; 0; 0; 0] []).
Proof.
  intros _ Hp. rewrite (draw_icon_spec size palette rounded_bg Hp).
  eexists _, _, (icon size palette rounded_bg). split; [done|].
  split; [by apply list_lookup_middle|]. done.
Qed.

Lemma draw_icon_canvas_witness :
  exists w' r img,
    draw_icon 16 DARK false empty_world = (w', Ok r) /\
    heap w' !! r = Some img /\
    mode img = "RGBA"%string /\ width img = 16 /\ height img = 16 /\
    background img = [0; 0; 0; 0] /\
    img = paint (drawn img) (Image "RGBA" 16 16 [0; 0; 0; 0] []).
Proof.
  apply (draw_icon_canvas 16 DARK false empty_world);
    [lia | apply DARK_is_palette].
Defined.

(** C9.  For every size of at least 1, every line width and every circle
    radius [draw_icon] passes to a drawing call is at least 1 pixel,
    whatever the palette and also when the run ends early: [lw] never
    returns less than 1, each circle is given by the bounding box of a
    radius of at least 1 and has an outline width of at least 1, and the
    corner radius of the rounded background is at least 2.  The two rings
    compute their radius without a lower bound, but are drawn only from
    size 64 on, where it is at least 1. *)
Theorem widths_and_radii_at_least_1 (size : Z) (palette : gmap string color)
    (rounded_bg : bool) (w : world) :
  1 <= size ->
  (forall s x, 1 <= lw s x) /\
  forall img,
    heap (fst (draw_icon size palette rounded_bg w)) !! length (heap w) = Some img ->
    Forall well_sized (drawn img).
Proof.
  intros _. split; [unfold lw; lia|].
  destruct (draw_icon_local size palette rounded_bg) as (ops & r & Hops & Hrun).
  intros img. rewrite Hrun. simpl.
  rewrite list_lookup_middle by done. by intros [= <-].
Qed.

Lemma widths_and_radii_at_least_1_witness :
  (forall s x, 1 <= lw s x) /\
  forall img,
    heap (fst (draw_icon 64 DARK true empty_world)) !! length (heap empty_world)
      = Some img ->
    Forall well_sized (drawn img).
Proof. apply (widths_and_radii_at_least_1 64 DARK true empty_world). lia. Defined.

(** *** The background *)

Lemma realise_no_rectangle (s : Q) (palette : gmap string color) (e : element) :
  Forall (fun op => is_rectangle op = false) (realise s palette e).
Proof. destruct e; repeat constructor. Qed.

Lemma int_32_scale (size : Z) : 0 <= size -> int (32 * scale size) = size / 8.
Proof.
  intros Hs. unfold scale. rewrite int_scale. cbn [Qnum Qden].
  rewrite Z.quot_div_nonneg by lia.
  change (1 * 256) with (32 * 8).
  apply Z.div_mul_cancel_l; lia.
Qed.

(** C2, as the code has it.  For every size of at least 1, the first
    drawing call of [draw_icon] fills the background in the palette's
    [bg] colour, and no later call draws a rectangle: with [rounded_bg] it
    is a rounded rectangle over the whole canvas whose corner radius is
    max(2, int(32 * size / 256)), the scaled radius truncated and not
    rounded to nearest, which is max(2, size div 8); without it, a plain
    rectangle over the whole canvas.  At every size that is a multiple of 8,
    as all exported sizes are, truncation and rounding agree. *)
Theorem background_fill (size : Z) (palette : gmap string color)
    (rounded_bg : bool) (w : world) :
  1 <= size -> is_palette palette ->
  (exists w' r img bg ops,
     draw_icon size palette rounded_bg w = (w', Ok r) /\
     heap w' !! r = Some img /\
     palette !! "bg" = Some bg /\
     drawn img =
       (if rounded_bg then
          RoundedRectangle (0, 0, size - 1, size - 1)
                           (Z.max 2 (int (32 * scale size))) bg
        else Rectangle (0, 0, size - 1, size - 1) bg) :: ops /\
     Forall (fun op => is_rectangle op = false) ops) /\
  int (32 * scale size) = size / 8 /\
  (size mod 8 = 0 -> corner_radius_as_stated size = Z.max 2 (int (32 * scale size))).
Proof.
  intros Hs Hp. split; [|split].
  - rewrite (draw_icon_spec size palette rounded_bg Hp).
    eexists _, _, (icon size palette rounded_bg), (palette !!! "bg"), _.
    split; [done|]. split; [by apply list_lookup_middle|].
    split; [apply is_palette_lookup; [done | solve [in_list]]|].
    split.
    + unfold icon, background_call. simpl. f_equal.
      destruct rounded_bg; [|done]. f_equal.
      destruct (Z.ltb_spec (int (32 * scale size)) 2); lia.
    + apply Forall_flat_map, Forall_forall. intros. apply realise_no_rectangle.
  - apply int_32_scale. lia.
  - intros H8. rewrite int_32_scale by lia.
    unfold corner_radius_as_stated, round_nearest, scale.
    cbn [Qmult Qdiv Qinv inject_Z Qnum Qden]. f_equal.
    change (Z.pos (1 * (1 * 256))) with 256.
    assert (Hq : size = 8 * (size / 8)) by (apply Z.div_exact; lia).
    set (k := size / 8) in *. clearbody k. subst size.
    assert (Hf : (2 * (32 * (8 * k * 1)) + 256) / (2 * 256) = k).
    { symmetry. apply (Z.div_unique _ _ k 256); lia. }
    assert (Hm : (2 * (32 * (8 * k * 1)) + 256) mod (2 * 256) = 256).
    { symmetry. apply (Z.mod_unique _ _ k 256); lia. }
    by rewrite Hf, Hm.
Qed.

Lemma background_fill_witness :
  (exists w' r img bg ops,
     draw_icon 32 DARK true empty_world = (w', Ok r) /\
     heap w' !! r = Some img /\
     DARK !! "bg" = Some bg /\
     drawn img =
       RoundedRectangle (0, 0, 32 - 1, 32 - 1)
                        (Z.max 2 (int (32 * scale 32))) bg :: ops /\
     Forall (fun op => is_rectangle op = false) ops) /\
  int (32 * scale 32) = 32 / 8 /\
  (32 mod 8 = 0 -> corner_radius_as_stated 32 = Z.max 2 (int (32 * scale 32))).
Proof.
  apply (background_fill 32 DARK true empty_world);
    [lia | apply DARK_is_palette].
Defined.

(** C2 as stated fails: at size 30 the scaled radius is 3.75, which rounds
    to 4, and [draw_icon] passes 3. *)
Lemma background_rounding_counterexample :
  ~ (forall img, render 30 DARK true = Ok img ->
       head (drawn img) = Some (background_as_stated 30 DARK true)).
Proof.
  intros H. specialize (H _ (render_spec 30 DARK true DARK_is_palette)).
  vm_compute in H. discriminate H.
Qed.

(** *** Detail layers *)

Lemma elements_at_iff (size : Z) (e : element) :
  In e (elements_at size) <-> exists ly, In (ly, e) scene /\ shown size ly = true.
Proof.
  unfold elements_at. rewrite in_map_iff. split.
  - intros ([ly e'] & <- & Hin). apply filter_In in Hin as [Hin Hs]. eauto.
  - intros (ly & Hin & Hs). exists (ly, e). split; [done|].
    apply filter_In. by split.
Qed.

Lemma shown_mono (size1 size2 : Z) (ly : layer) :
  size1 <= size2 -> shown size1 ly = true -> shown size2 ly = true.
Proof. intros Hle. destruct ly; simpl; rewrite ?Z.leb_le; lia. Qed.

Lemma elements_at_mono (size1 size2 : Z) (e : element) :
  size1 <= size2 -> In e (elements_at size1) -> In e (elements_at size2).
Proof.
  intros Hle. rewrite !elements_at_iff. intros (ly & Hin & Hs).
  exists ly. split; [done|]. by eapply shown_mono.
Qed.

Lemma icon_draws_element (size : Z) (palette : gmap string color)
    (rounded_bg : bool) (e : element) (op : draw_op) :
  In e (elements_at size) -> In op (realise (scale size) palette e) ->
  In op (drawn (icon size palette rounded_bg)).
Proof.
  intros He Hop. unfold icon. cbn [drawn]. apply in_cons, in_flat_map. eauto.
Qed.

(** C4.  Detail layers are included monotonically in the size.  At every
    size [draw_icon] draws the background followed by the elements of the
    table shown at that size, in table order.  The base layer is shown at
    every size, the discovery link from size 32, the satellite lines and
    nodes from size 48, the outer ring and the glow ring of the root from
    size 64, and nothing else is ever drawn.  So every element drawn at
    a size is drawn at every larger size, and at size 16 exactly the base
    layer is drawn: no ring, no satellite, no discovery link. *)
Theorem detail_layers_monotone (size1 size2 : Z) (palette : gmap string color)
    (rounded_bg : bool) :
  is_palette palette -> size1 <= size2 ->
  (forall size,
     render size palette rounded_bg =
       Ok (Image "RGBA" size size [0; 0; 0; 0]
             (background_call size palette rounded_bg
                :: flat_map (realise (scale size) palette) (elements_at size)))) /\
  (forall size e,
     In e (elements_at size) <->
     In e base_layer \/ (e = discovery_link /\ 32 <= size) \/
     (In e satellites /\ 48 <= size) \/ (In e rings /\ 64 <= size)) /\
  (forall e, In e (elements_at size1) ->
     In e (elements_at size2) /\
     forall op, In op (realise (scale size2) palette e) ->
       exists img, render size2 palette rounded_bg = Ok img /\ In op (drawn img)) /\
  elements_at 16 = base_layer.
Proof.
  intros Hp Hle. split; [|split; [|split]].
  - intros size. by rewrite render_spec.
  - intros size e. rewrite elements_at_iff. split.
    + intros (ly & Hin & Hs).
      unfold scene in Hin. simpl in Hin.
      repeat (destruct Hin as [[= <- <-]|Hin];
              [simpl in Hs; rewrite ?Z.leb_le in Hs;
               first [ left; solve [in_list]
                     | right; left; split; [reflexivity | exact Hs]
                     | right; right; left; split; [solve [in_list] | exact Hs]
                     | right; right; right; split; [solve [in_list] | exact Hs] ]|]).
      destruct Hin.
    + intros [H|[[-> H]|[[H H']|[H H']]]].
      * exists Base. split; [|done]. revert e H. apply List.Forall_forall.
        repeat (apply List.Forall_cons; [solve [in_list]|]). apply List.Forall_nil.
      * exists Details. split; [solve [in_list]|]. by apply Z.leb_le.
      * exists Satellites. split; [|by apply Z.leb_le]. revert e H.
        apply List.Forall_forall.
        repeat (apply List.Forall_cons; [solve [in_list]|]). apply List.Forall_nil.
      * exists Ring. split; [|by apply Z.leb_le]. revert e H.
        apply List.Forall_forall.
        repeat (apply List.Forall_cons; [solve [in_list]|]). apply List.Forall_nil.
  - intros e He. split; [by eapply elements_at_mono|].
    intros op Hop. eexists. split; [by apply render_spec|].
    eapply icon_draws_element; [|done]. by eapply elements_at_mono.
  - reflexivity.
Qed.

Lemma detail_layers_monotone_witness :
  (forall size,
     render size DARK true =
       Ok (Image "RGBA" size size [0; 0; 0; 0]
             (background_call size DARK true
                :: flat_map (realise (scale size) DARK) (elements_at size)))) /\
  (forall size e,
     In e (elements_at size) <->
     In e base_layer \/ (e = discovery_link /\ 32 <= size) \/
     (In e satellites /\ 48 <= size) \/ (In e rings /\ 64 <= size)) /\
  (forall e, In e (elements_at 64) ->
     In e (elements_at 128) /\
     forall op, In op (realise (scale 128) DARK e) ->
       exists img, render 128 DARK true = Ok img /\ In op (drawn img)) /\
  elements_at 16 = base_layer.
Proof.
  apply (detail_layers_monotone 64 128 DARK true); [apply DARK_is_palette | lia].
Defined.

(** *** Nodes *)

Lemma node_in_scene (size : Z) cx cy outer_r inner_r stroke fill bg stroke_w :
  1 <= size ->
  In (Node cx cy outer_r inner_r stroke fill bg stroke_w) (elements_at size) ->
  bg = "card"%string /\ In stroke roles /\ In fill roles /\
  Z.max 1 (int (inner_r * scale size)) <= Z.max 1 (int (outer_r * scale size)).
Proof.
  intros Hs Hin. apply elements_at_iff in Hin as (ly & Hin & _).
  unfold scene in Hin. simpl in Hin.
  repeat (destruct Hin as [Heq|Hin];
          [first [ discriminate Heq
                 | injection Heq as <- <- <- <- <- <- <- <- <-;
                   split; [reflexivity|]; split; [solve [in_list]|];
                   split; [solve [in_list]|];
                   unfold scale; rewrite !int_scale; cbn [Qnum Qden];
                   Z.to_euclidean_division_equations; lia ]|]).
  destruct Hin.
Qed.

(** C1, as the code has it.  For every size of at least 1 and every
    palette, each node [draw_icon] draws is two consecutive calls: an outer
    circle filled with the palette's [card] colour and outlined in the
    stroke colour with a width of at least 1 pixel, then an inner dot with
    the same centre, filled with the fill colour.  The dot is never
    skipped: its radius is max(1, int(inner_r * scale)), so the guard
    [ir_px > 0] always holds, and that radius is at most the radius of the
    outer circle, max(1, int(outer_r * scale)), not always smaller. *)
Theorem node_drawing (size : Z) (palette : gmap string color)
    (rounded_bg : bool) (w : world) cx cy outer_r inner_r stroke fill bg stroke_w :
  1 <= size -> is_palette palette ->
  In (Node cx cy outer_r inner_r stroke fill bg stroke_w) (elements_at size) ->
  exists w' r img before after,
    draw_icon size palette rounded_bg w = (w', Ok r) /\
    heap w' !! r = Some img /\
    bg = "card"%string /\
    let ox := int (cx * scale size) in
    let oy := int (cy * scale size) in
    let or_px := Z.max 1 (int (outer_r * scale size)) in
    let ir_px := Z.max 1 (int (inner_r * scale size)) in
    let sw := Z.max 1 (int (stroke_w * scale size)) in
    drawn img =
      before
      ++ [Ellipse (ox - or_px, oy - or_px, ox + or_px, oy + or_px)
                  (palette !! "card") (palette !! stroke) sw;
          Ellipse (ox - ir_px, oy - ir_px, ox + ir_px, oy + ir_px)
                  (palette !! fill) None 1]
      ++ after /\
    is_Some (palette !! "card") /\ is_Some (palette !! stroke) /\
    is_Some (palette !! fill) /\
    1 <= sw /\ 1 <= ir_px <= or_px.
Proof.
  intros Hs Hp Hin.
  destruct (node_in_scene size _ _ _ _ _ _ _ _ Hs Hin) as (-> & Hst & Hfi & Hle).
  assert (Hca : In "card"%string roles) by in_list.
  rewrite (draw_icon_spec size palette rounded_bg Hp).
  apply in_split in Hin as (l1 & l2 & Hl).
  eexists _, _, (icon size palette rounded_bg),
    (background_call size palette rounded_bg
       :: flat_map (realise (scale size) palette) l1),
    (flat_map (realise (scale size) palette) l2).
  split; [done|]. split; [by apply list_lookup_middle|]. split; [done|].
  cbv zeta.
  rewrite (is_palette_lookup palette "card" Hp Hca).
  rewrite (is_palette_lookup palette stroke Hp Hst).
  rewrite (is_palette_lookup palette fill Hp Hfi).
  split.
  - unfold icon. cbn [drawn]. rewrite Hl, flat_map_app. reflexivity.
  - repeat split; eauto; lia.
Qed.

Lemma node_drawing_witness :
  exists w' r img before after,
    draw_icon 16 DARK false empty_world = (w', Ok r) /\
    heap w' !! r = Some img /\
    "card"%string = "card"%string /\
    let ox := int (44 * scale 16) in
    let oy := int (56 * scale 16) in
    let or_px := Z.max 1 (int (10 * scale 16)) in
    let ir_px := Z.max 1 (int (4.5 * scale 16)) in
    let sw := Z.max 1 (int (3 * scale 16)) in
    drawn img =
      before
      ++ [Ellipse (ox - or_px, oy - or_px, ox + or_px, oy + or_px)
                  (DARK !! "card") (DARK !! "earth") sw;
          Ellipse (ox - ir_px, oy - ir_px, ox + ir_px, oy + ir_px)
                  (DARK !! "earth") None 1]
      ++ after /\
    is_Some (DARK !! "card") /\ is_Some (DARK !! "earth") /\
    is_Some (DARK !! "earth") /\
    1 <= sw /\ 1 <= ir_px <= or_px.
Proof.
  apply (node_drawing 16 DARK false empty_world 44 56 10 4.5 "earth" "earth"
                      "card" 3); [lia | apply DARK_is_palette |].
  vm_compute. tauto.
Defined.

(** C1 as stated fails at size 16, on both counts.  The scaled inner
    radius of every node is 0 there (4.5 * 16 / 256 truncates to 0 for the
    leaf nodes), the claim has the dots skipped, and [draw_icon] draws them;
    and the dot of the first leaf node has the bounding box of its outer
    circle, so it is not smaller. *)
Lemma inner_dot_counterexample :
  ~ (forall img, render 16 DARK false = Ok img ->
       drawn img = background_call 16 DARK false
                   :: flat_map (realise_as_stated (scale 16) DARK) (elements_at 16))
  /\ ~ (forall img, render 16 DARK false = Ok img -> dots_smaller_as_stated img).
Proof.
  pose proof (render_spec 16 DARK false DARK_is_palette) as Hr. split.
  - intros H. specialize (H _ Hr).
    apply (f_equal (@length draw_op)) in H. vm_compute in H. discriminate H.
  - intros H. specialize (H _ Hr).
    specialize (H (take 8 (drawn (icon 16 DARK false)))
                  (drop 10 (drawn (icon 16 DARK false)))
                  1 2 3 4 [26; 46; 28] [196; 167; 125] 1
                  1 2 3 4 [196; 167; 125] 1).
    assert (Hd : 3 - 1 < 3 - 1); [apply H; by vm_compute | lia].
Qed.

(** *** The satellite lines *)






(** ** The exporters *)

Lemma effect_bind (c1 c2 : M unit) i1 i2 e1 e2 :
  effect c1 i1 e1 -> effect c2 i2 e2 ->
  effect (c1 ;; c2) (i1 ++ i2) (e1 ++ e2).
Proof.
  intros H1 H2 w. unfold mbind, M_bind. rewrite H1, H2. simpl.
  by rewrite !app_assoc.
Qed.

Lemma effect_print (m : message) : effect (print m) [] [Printed m].
Proof. intros w. unfold print. by rewrite app_nil_r. Qed.

Lemma effect_for_ {A : Type} (body : A -> M unit) (imgs : A -> list image)
    (evs : A -> list event) (l : list A) :
  (forall x, effect (body x) (imgs x) (evs x)) ->
  effect (for_ l body) (flat_map imgs l) (flat_map evs l).
Proof.
  intros Hb. induction l as [|x l IH]; simpl.
  - intros w. unfold mret, M_ret. rewrite !app_nil_r. by destruct w.
  - by apply effect_bind.
Qed.

Lemma events_of_effect (c : M unit) imgs evs :
  effect c imgs evs -> events_of c = evs.
Proof. intros H. unfold events_of. by rewrite H. Qed.

Lemma icon_frame_of (palette : gmap string color) (rounded : bool) (sz : Z) :
  1 <= sz -> is_palette palette ->
  frame_of palette rounded sz (icon sz palette rounded).
Proof.
  intros Hs Hp. split; [by apply render_spec|]. do 2 (split; [done|]).
  eexists (palette !!! "bg"), _.
  split; [apply is_palette_lookup; [done | solve [in_list]]|].
  unfold icon, background_call. cbn [drawn]. f_equal.
  destruct rounded; [|done]. rewrite int_32_scale by lia. f_equal.
  destruct (Z.ltb_spec (sz / 8) 2); lia.
Qed.

(** *** ICO files *)

Lemma lookup_fresh_seq (h l : list image) :
  (fun r => (h ++ l) !!! r) <$> seq (length h) (length l) = l.
Proof.
  revert h. induction l as [|x l IH]; intros h; [done|].
  simpl. f_equal; [by apply list_lookup_total_middle|].
  specialize (IH (h ++ [x])). rewrite length_app in IH. simpl in IH.
  replace (length h + 1)%nat with (S (length h)) in IH by lia.
  by rewrite <- app_assoc in IH.
Qed.

Lemma for_acc_draw_icon (palette : gmap string color) (rb : Z -> bool)
    (sizes : list Z) (acc : list ref) (w : world) :
  is_palette palette ->
  for_acc sizes (fun images sz =>
      img ← draw_icon sz palette (rb sz); mret (images ++ [img])) acc w =
  (World (heap w ++ ((fun sz => icon sz palette (rb sz)) <$> sizes)) (out w),
   Ok (acc ++ seq (length (heap w)) (length sizes))).
Proof.
  intros Hp. revert acc w. induction sizes as [|sz sizes IH]; intros acc w.
  - simpl. unfold mret, M_ret. rewrite !app_nil_r. by destruct w.
  - simpl. unfold mbind at 1, M_bind at 1. unfold mbind at 1, M_bind at 1.
    rewrite (draw_icon_spec sz palette (rb sz) Hp). unfold mret at 1, M_ret at 1.
    rewrite IH. simpl. rewrite length_app. simpl.
    replace (length (heap w) + 1)%nat with (S (length (heap w))) by lia.
    by rewrite <- !app_assoc.
Qed.

Lemma generate_ico_effect (filename : string) (palette : gmap string color) :
  is_palette palette ->
  effect (generate_ico filename palette) (ico_frames palette)
    (ico_events filename palette).
Proof.
  intros Hp w. unfold generate_ico, ico_events. cbv zeta.
  unfold mbind at 1, M_bind at 1.
  rewrite (for_acc_draw_icon palette (fun sz => 32 <=? sz) _ [] w Hp).
  fold ico_sizes. fold (ico_frames palette).
  pose proof (lookup_fresh_seq (heap w) (ico_frames palette)) as Hseq.
  change (length (ico_frames palette)) with 7%nat in Hseq.
  change (length ico_sizes) with 7%nat.
  cbn [seq fmap list_fmap] in Hseq. cbn [seq app].
  unfold index, mbind, M_bind, save, print.
  cbn [lookup list_lookup heap out drop].
  rewrite <- app_assoc. cbn [app]. do 4 f_equal. f_equal.
  - by apply list_lookup_total_middle.
  - apply (f_equal (drop 1)) in Hseq. exact Hseq.
Qed.

(** C7.  For every palette, [generate_ico] renders exactly the sizes 16,
    24, 32, 48, 64, 128, 256, in that order, with a rounded background from
    size 32 on and a square one below, and makes one [save] call, in format
    ICO, at the given file name in the directory of the script, with the
    seven (size, size) pairs as [sizes].  But it calls [save] on the first
    image, the 16-pixel one, and passes the six larger ones as
    [append_images]: of the seven requested sizes Pillow's writer keeps
    those no larger than the image [save] is called on, which is (16, 16)
    alone.  The file holds one frame, not the seven rasters the comment in
    the source and the line it prints announce. *)
Theorem generate_ico_one_frame (filename : string) (palette : gmap string color)
    (w : world) :
  is_palette palette ->
  exists first rest,
    generate_ico filename palette w =
      (World (heap w ++ first :: rest)
             (out w ++
              [Saved (os_path_join SCRIPT_DIR filename) "ICO" first
                     (Some [(16, 16); (24, 24); (32, 32); (48, 48); (64, 64);
                            (128, 128); (256, 256)])
                     rest;
               Printed (CreatedSizes (os_path_join SCRIPT_DIR filename) 7
                                     [16; 24; 32; 48; 64; 128; 256])]),
       Ok tt) /\
    Forall2 (fun sz img => frame_of palette (32 <=? sz) sz img)
            [16; 24; 32; 48; 64; 128; 256] (first :: rest) /\
    ico_kept_sizes first [(16, 16); (24, 24); (32, 32); (48, 48); (64, 64);
                          (128, 128); (256, 256)] = [(16, 16)].
Proof.
  intros Hp. exists (icon 16 palette false), (drop 1 (ico_frames palette)).
  split; [apply (generate_ico_effect filename palette Hp)|]. split; [|done].
  unfold ico_frames, ico_sizes. cbn [fmap list_fmap drop].
  repeat (constructor; [apply icon_frame_of; [lia | done]|]). constructor.
Qed.

Lemma generate_ico_one_frame_witness :
  exists first rest,
    generate_ico "subnetree.ico" DARK empty_world =
      (World (heap empty_world ++ first :: rest)
             (out empty_world ++
              [Saved (os_path_join SCRIPT_DIR "subnetree.ico") "ICO" first
                     (Some [(16, 16); (24, 24); (32, 32); (48, 48); (64, 64);
                            (128, 128); (256, 256)])
                     rest;
               Printed (CreatedSizes (os_path_join SCRIPT_DIR "subnetree.ico") 7
                                     [16; 24; 32; 48; 64; 128; 256])]),
       Ok tt) /\
    Forall2 (fun sz img => frame_of DARK (32 <=? sz) sz img)
            [16; 24; 32; 48; 64; 128; 256] (first :: rest) /\
    ico_kept_sizes first [(16, 16); (24, 24); (32, 32); (48, 48); (64, 64);
                          (128, 128); (256, 256)] = [(16, 16)].
Proof.
  apply (generate_ico_one_frame "subnetree.ico" DARK empty_world
           DARK_is_palette).
Defined.

(** *** PNG sets *)

Lemma generate_pngs_effect (prefix : string) (palette : gmap string color) :
  is_palette palette ->
  effect (generate_pngs prefix palette)
    ((fun sz => icon sz palette true) <$> [32; 64; 128; 256; 512])
    (png_events prefix palette).
Proof.
  intros Hp. unfold generate_pngs, png_events.
  change ((fun sz => icon sz palette true) <$> [32; 64; 128; 256; 512])
    with (flat_map (fun sz => [icon sz palette true]) [32; 64; 128; 256; 512]).
  apply effect_for_. intros sz w. unfold mbind, M_bind.
  rewrite (draw_icon_spec sz palette true Hp). unfold save, print. simpl.
  rewrite fresh_lookup. by rewrite <- app_assoc.
Qed.

Lemma append_inj_l (p a b : string) : (p ++ a = p ++ b)%string -> a = b.
Proof. induction p as [|c p IH]; simpl; [done|]. intros [= H]. by apply IH. Qed.

(** C8.  For every prefix and palette, [generate_pngs] renders exactly the
    sizes 32, 64, 128, 256, 512, in that order, each with a rounded
    background, and saves each image on its own in format PNG under the
    name prefix-size.png in the directory of the script: five files with
    five different names, each image as wide and as high as its name
    says. *)
Theorem generate_pngs_files (prefix : string) (palette : gmap string color)
    (w : world) :
  is_palette palette ->
  exists i32 i64 i128 i256 i512,
    let file name := os_path_join SCRIPT_DIR (prefix ++ name) in
    generate_pngs prefix palette w =
      (World (heap w ++ [i32; i64; i128; i256; i512])
             (out w ++
              [Saved (file "-32.png") "PNG" i32 None [];
               Printed (Created (file "-32.png"));
               Saved (file "-64.png") "PNG" i64 None [];
               Printed (Created (file "-64.png"));
               Saved (file "-128.png") "PNG" i128 None [];
               Printed (Created (file "-128.png"));
               Saved (file "-256.png") "PNG" i256 None [];
               Printed (Created (file "-256.png"));
               Saved (file "-512.png") "PNG" i512 None [];
               Printed (Created (file "-512.png"))]),
       Ok tt) /\
    Forall2 (fun sz img => frame_of palette true sz img)
            [32; 64; 128; 256; 512] [i32; i64; i128; i256; i512] /\
    NoDup (basename <$> [file "-32.png"; file "-64.png"; file "-128.png";
                         file "-256.png"; file "-512.png"]).
Proof.
  intros Hp.
  exists (icon 32 palette true), (icon 64 palette true), (icon 128 palette true),
    (icon 256 palette true), (icon 512 palette true).
  cbv zeta. split; [apply (generate_pngs_effect prefix palette Hp)|]. split.
  - repeat (constructor; [apply icon_frame_of; [lia | done]|]). constructor.
  - cbn [fmap list_fmap basename].
    change [(prefix ++ "-32.png")%string; (prefix ++ "-64.png")%string;
            (prefix ++ "-128.png")%string; (prefix ++ "-256.png")%string;
            (prefix ++ "-512.png")%string]
      with (String.append prefix <$>
              ["-32.png"; "-64.png"; "-128.png"; "-256.png"; "-512.png"]%string).
    apply NoDup_fmap_2; [intros a b; apply append_inj_l|].
    compute_done.
Qed.

Lemma generate_pngs_files_witness :
  exists i32 i64 i128 i256 i512,
    let file name := os_path_join SCRIPT_DIR ("icon-dark" ++ name) in
    generate_pngs "icon-dark" DARK empty_world =
      (World (heap empty_world ++ [i32; i64; i128; i256; i512])
             (out empty_world ++
              [Saved (file "-32.png") "PNG" i32 None [];
               Printed (Created (file "-32.png"));
               Saved (file "-64.png") "PNG" i64 None [];
               Printed (Created (file "-64.png"));
               Saved (file "-128.png") "PNG" i128 None [];
               Printed (Created (file "-128.png"));
               Saved (file "-256.png") "PNG" i256 None [];
               Printed (Created (file "-256.png"));
               Saved (file "-512.png") "PNG" i512 None [];
               Printed (Created (file "-512.png"))]),
       Ok tt) /\
    Forall2 (fun sz img => frame_of DARK true sz img)
            [32; 64; 128; 256; 512] [i32; i64; i128; i256; i512] /\
    NoDup (basename <$> [file "-32.png"; file "-64.png"; file "-128.png";
                         file "-256.png"; file "-512.png"]).
Proof.
  apply (generate_pngs_files "icon-dark" DARK empty_world DARK_is_palette).
Defined.

(** ** The entry point *)

Lemma script_palette (pal : gmap string color) :
  pal = DARK \/ pal = LIGHT -> is_palette pal.
Proof. intros [-> | ->]; [apply DARK_is_palette | apply LIGHT_is_palette]. Qed.

Lemma main_effect :
  exists imgs,
    effect main imgs
      ([Printed (Text ("Generating SubNetree icon files..." ++ nl))]
       ++ ico_events "subnetree.ico" DARK
       ++ ico_events "subnetree-light.ico" LIGHT
       ++ [Printed (Text "")]
       ++ png_events "icon-dark" DARK
       ++ png_events "icon-light" LIGHT
       ++ [Printed (Text (nl ++ "Done!"))]).
Proof.
  eexists. unfold main.
  apply effect_bind; [apply effect_print|].
  apply effect_bind; [apply (generate_ico_effect _ _ DARK_is_palette)|].
  apply effect_bind; [apply (generate_ico_effect _ _ LIGHT_is_palette)|].
  apply effect_bind; [apply effect_print|].
  apply effect_bind; [apply (generate_pngs_effect _ _ DARK_is_palette)|].
  apply effect_bind; [apply (generate_pngs_effect _ _ LIGHT_is_palette)|].
  apply effect_print.
Qed.

(** C3, as the code has it.  From any state the entry point returns
    normally, and what it does is, in this order: the banner, the ICO
    export of [subnetree.ico] with the dark palette, the ICO export of
    [subnetree-light.ico] with the light palette, an empty line, the PNG-set
    export with prefix [icon-dark] and the dark palette, the PNG-set export
    with prefix [icon-light] and the light palette, and the closing line.
    That is two ICO exports followed by two PNG-set exports: twelve files,
    the two icons and then ten PNG images. *)
Theorem main_exports (w : world) :
  exists w' ico_dark ico_light png_dark png_light,
    main w = (w', Ok tt) /\
    events_of (generate_ico "subnetree.ico" DARK) = ico_dark /\
    events_of (generate_ico "subnetree-light.ico" LIGHT) = ico_light /\
    events_of (generate_pngs "icon-dark" DARK) = png_dark /\
    events_of (generate_pngs "icon-light" LIGHT) = png_light /\
    out w' =
      out w
      ++ [Printed (Text ("Generating SubNetree icon files..." ++ nl))]
      ++ ico_dark ++ ico_light
      ++ [Printed (Text "")]
      ++ png_dark ++ png_light
      ++ [Printed (Text (nl ++ "Done!"))] /\
    saved_files (events_of main) =
      [("subnetree.ico", "ICO", [16; 24; 32; 48; 64; 128; 256]);
       ("subnetree-light.ico", "ICO", [16; 24; 32; 48; 64; 128; 256]);
       ("icon-dark-32.png", "PNG", [32]);
       ("icon-dark-64.png", "PNG", [64]);
       ("icon-dark-128.png", "PNG", [128]);
       ("icon-dark-256.png", "PNG", [256]);
       ("icon-dark-512.png", "PNG", [512]);
       ("icon-light-32.png", "PNG", [32]);
       ("icon-light-64.png", "PNG", [64]);
       ("icon-light-128.png", "PNG", [128]);
       ("icon-light-256.png", "PNG", [256]);
       ("icon-light-512.png", "PNG", [512])]%string.
Proof.
  destruct main_effect as (imgs & Hmain).
  eexists _, (ico_events "subnetree.ico" DARK),
    (ico_events "subnetree-light.ico" LIGHT),
    (png_events "icon-dark" DARK), (png_events "icon-light" LIGHT).
  split; [apply Hmain|].
  split; [apply (events_of_effect _ _ _ (generate_ico_effect _ _ DARK_is_palette))|].
  split; [apply (events_of_effect _ _ _ (generate_ico_effect _ _ LIGHT_is_palette))|].
  split; [apply (events_of_effect _ _ _ (generate_pngs_effect _ _ DARK_is_palette))|].
  split; [apply (events_of_effect _ _ _ (generate_pngs_effect _ _ LIGHT_is_palette))|].
  split; [reflexivity|].
  vm_compute. reflexivity.
Qed.

Lemma saved_files_app (e1 e2 : list event) :
  saved_files (e1 ++ e2) = saved_files e1 ++ saved_files e2.
Proof. apply flat_map_app. Qed.

(** C3 as stated fails: the entry point makes two PNG-set exports, not
    four; it writes ten PNG files where four exports would write twenty. *)
Lemma four_png_sets_counterexample : ~ four_png_sets_as_stated.
Proof.
  intros (p1 & p2 & p3 & p4 & pal1 & pal2 & pal3 & pal4 & Hpal & H).
  apply Forall_cons in Hpal as [H1 Hpal]. apply Forall_cons in Hpal as [H2 Hpal].
  apply Forall_cons in Hpal as [H3 Hpal]. apply Forall_cons in Hpal as [H4 _].
  apply script_palette in H1, H2, H3, H4.
  apply (f_equal (@length _)) in H.
  match type of H with ?l = ?r =>
    assert (Hl : l = 12%nat); [| assert (Hr : r = 22%nat)] end.
  - vm_compute. reflexivity.
  - rewrite (events_of_effect _ _ _
      (effect_bind _ _ _ _ _ _ (generate_ico_effect "subnetree.ico" DARK DARK_is_palette)
      (effect_bind _ _ _ _ _ _ (generate_ico_effect "subnetree-light.ico" LIGHT LIGHT_is_palette)
      (effect_bind _ _ _ _ _ _ (generate_pngs_effect p1 pal1 H1)
      (effect_bind _ _ _ _ _ _ (generate_pngs_effect p2 pal2 H2)
      (effect_bind _ _ _ _ _ _ (generate_pngs_effect p3 pal3 H3)
                               (generate_pngs_effect p4 pal4 H4))))))).
    rewrite !saved_files_app, !length_app. reflexivity.
  - discriminate (eq_trans (eq_trans (eq_sym Hl) H) Hr).
Qed.


(** * Further properties *)

(** ** Missing palette entries *)

Lemma first_missing_app (palette : gmap string color) (k1 k2 : list string) :
  first_missing palette (k1 ++ k2) =
  match first_missing palette k1 with
  | Some key => Some key
  | None => first_missing palette k2
  end.
Proof.
  unfold first_missing. induction k1 as [|k k1 IH]; simpl; [done|].
  by destruct (missing palette k).
Qed.

Lemma first_missing_None (palette : gmap string color) (keys : list string) :
  first_missing palette keys = None <->
  List.Forall (fun key => is_Some (palette !! key)) keys.
Proof.
  unfold first_missing. induction keys as [|k keys IH]; simpl.
  - split; [constructor | done].
  - unfold missing at 1. destruct (palette !! k) as [v|] eqn:Hk.
    + rewrite IH. split; [intros; constructor; eauto | by inversion 1].
    + split; [done|]. inversion 1 as [|? ? [v Hv]]. congruence.
Qed.

Lemma first_missing_Some (palette : gmap string color) (keys : list string) key :
  first_missing palette keys = Some key ->
  In key keys /\ palette !! key = None.
Proof.
  intros H. apply find_some in H as [Hin Hm]. split; [done|].
  unfold missing in Hm. by destruct (palette !! key).
Qed.

Section runs_rules.
Context {A B : Type} (palette : gmap string color) (l : ref).

Lemma runs_ret (a : A) : runs palette l (mret a) [] [] a.
Proof. exists []. split; [apply paints_ret | done]. Qed.

Lemma runs_bind (c : M A) (k : A -> M B) k1 k2 o1 o2 a b :
  runs palette l c k1 o1 a -> runs palette l (k a) k2 o2 b ->
  runs palette l (c ≫= k) (k1 ++ k2) (o1 ++ o2) b.
Proof.
  intros (p1 & Hc & H1) (p2 & Hk & H2). unfold runs, outcome_of in *.
  rewrite first_missing_app.
  destruct (first_missing palette k1) as [key|].
  - exists p1. split; [by apply paints_raise | done].
  - exists (p1 ++ p2). split; [by eapply paints_bind|].
    intros Hn. by rewrite H1, H2.
Qed.

Lemma runs_if (b : bool) (c1 c2 : M A) k1 k2 o1 o2 a :
  runs palette l c1 k1 o1 a -> runs palette l c2 k2 o2 a ->
  runs palette l (if b then c1 else c2)
       (if b then k1 else k2) (if b then o1 else o2) a.
Proof. by destruct b. Qed.

Lemma runs_eq (c : M A) k k' o o' a :
  runs palette l c k o a -> k = k' -> o = o' -> runs palette l c k' o' a.
Proof. by intros ? <- <-. Qed.

End runs_rules.

Lemma runs_getitem (palette : gmap string color) (l : ref) (key : string) :
  runs palette l (getitem palette key) [key] [] (palette !!! key).
Proof.
  exists []. split; [|done]. unfold outcome_of, first_missing, missing. simpl.
  destruct (palette !! key) as [v|] eqn:Hk.
  - rewrite (lookup_total_correct _ _ _ Hk). by apply paints_getitem.
  - by apply paints_getitem_missing.
Qed.

Lemma runs_paints {A : Type} (palette : gmap string color) (l : ref)
    (c : M A) ops a :
  paints l c ops (Ok a) -> runs palette l c [] ops a.
Proof. intros H. by exists ops. Qed.

Ltac runs_step :=
  lazymatch goal with
  | |- runs _ _ (mret _) _ _ _ => apply runs_ret
  | |- runs _ _ (getitem _ _) _ _ _ => apply runs_getitem
  | |- runs _ _ (draw_line _ _ _ _ _ _ _ _) _ _ _ =>
      apply runs_paints, paints_draw_line
  | |- runs _ _ (draw_node _ _ _ _ _ _ _ _ _ _) _ _ _ =>
      apply runs_paints, paints_draw_node
  | |- runs _ _ (rounded_rectangle _ _ _ _) _ _ _ =>
      apply runs_paints, paints_draw_call
  | |- runs _ _ (rectangle _ _ _) _ _ _ => apply runs_paints, paints_draw_call
  | |- runs _ _ (ellipse _ _ _ _ _) _ _ _ => apply runs_paints, paints_draw_call
  | |- runs _ _ (if _ then _ else _) _ _ _ => apply runs_if
  | |- runs _ _ (_ ≫= _) _ _ _ => eapply runs_bind; [| cbv beta]
  end.

Lemma draw_icon_runs (size : Z) (palette : gmap string color)
    (rounded_bg : bool) (w : world) :
  exists img,
    draw_icon size palette rounded_bg w =
      (World (heap w ++ [img]) (out w),
       outcome_of palette (lookups size) (length (heap w))) /\
    (first_missing palette (lookups size) = None ->
     img = icon size palette rounded_bg).
Proof.
  unfold draw_icon. rewrite bind_Image_new.
  cbv beta iota zeta delta [sc for_ ImageDraw_Draw].
  match goal with |- context [?c (World ?h ?o)] =>
    assert (Hc : runs palette (length (heap w)) c (lookups size)
                   (drawn (icon size palette rounded_bg)) (length (heap w))) end.
  { eapply runs_eq; [repeat runs_step | |].
    - unfold lookups.
      destruct rounded_bg, (64 <=? size), (48 <=? size), (32 <=? size);
        reflexivity.
    - unfold icon, elements_at, scale, scene.
      cbn [drawn List.filter shown fst].
      destruct rounded_bg, (64 <=? size), (48 <=? size), (32 <=? size);
        reflexivity. }
  destruct Hc as (ops & Hc & Hops). rewrite Hc. simpl heap. simpl out.
  rewrite alter_fresh. eexists. split; [reflexivity|].
  intros Hn. by rewrite (Hops Hn).
Qed.

Lemma lookups_roles (size : Z) (key : string) :
  In key (lookups size) -> In key roles.
Proof.
  unfold lookups.
  destruct (64 <=? size), (48 <=? size), (32 <=? size); simpl;
    intros H; repeat (destruct H as [<-|H]; [solve [in_list]|]);
    destruct H.
Qed.

Lemma lookups_required (P : string -> Prop) (size : Z) :
  List.Forall P (lookups size) <-> List.Forall P (required size).
Proof.
  rewrite !List.Forall_forall. unfold lookups, required.
  destruct (64 <=? size), (48 <=? size), (32 <=? size); simpl;
    (split; intros H key Hk;
     repeat (destruct Hk as [<-|Hk]; [apply H; solve [in_list]|]);
     destruct Hk).
Qed.

(** X1.  At every size of at least 1, [draw_icon] looks the palette up
    lazily, in the order of the source, and only for what it draws at that
    size.  If the palette has every key looked up, the call returns the
    complete icon; otherwise it raises [KeyError] for the first key, in
    that order, that the palette lacks, having allocated an image. *)
Theorem draw_icon_first_missing_key (size : Z) (palette : gmap string color)
    (rounded_bg : bool) (w : world) :
  1 <= size ->
  match first_missing palette (lookups size) with
  | None =>
      draw_icon size palette rounded_bg w =
        (World (heap w ++ [icon size palette rounded_bg]) (out w),
         Ok (length (heap w)))
  | Some key =>
      palette !! key = None /\
      exists img,
        draw_icon size palette rounded_bg w =
          (World (heap w ++ [img]) (out w), Raise (KeyError key))
  end.
Proof.
  intros _.
  destruct (draw_icon_runs size palette rounded_bg w) as (img & Hrun & Himg).
  unfold outcome_of in Hrun.
  destruct (first_missing palette (lookups size)) as [key|] eqn:Hm.
  - split; [by apply first_missing_Some in Hm as [_ ?]|]. by exists img.
  - by rewrite Hrun, Himg.
Qed.

Lemma draw_icon_first_missing_key_witness :
  delete "ring" DARK !! "ring" = None /\
  exists img,
    draw_icon 64 (delete "ring" DARK) true empty_world =
      (World (heap empty_world ++ [img]) (out empty_world),
       Raise (KeyError "ring")).
Proof.
  exact (draw_icon_first_missing_key 64 (delete "ring" DARK) true empty_world
           ltac:(lia)).
Defined.

Lemma draw_icon_Ok_iff (size : Z) (palette : gmap string color)
    (rounded_bg : bool) (w : world) :
  (exists w' r, draw_icon size palette rounded_bg w = (w', Ok r)) <->
  List.Forall (fun key => is_Some (palette !! key)) (required size).
Proof.
  rewrite <- lookups_required, <- first_missing_None.
  destruct (draw_icon_runs size palette rounded_bg w) as (img & Hrun & _).
  rewrite Hrun. unfold outcome_of.
  destruct (first_missing palette (lookups size)); split; try done.
  - by intros (? & ? & [= _ ?]).
  - intros _. by eexists _, _.
Qed.

(** X2.  At every size of at least 1, [draw_icon] returns normally
    exactly when the palette has the entries the size needs: [bg],
    [line_green], [line_earth], [earth], [card] and [green] at every such
    size, [line_faint] from size 32, [sage] and [sage_dim] from size 48,
    [ring] from size 64.  Entries of layers that are not drawn are never
    looked up. *)
Theorem draw_icon_required_entries (size : Z) (palette : gmap string color)
    (rounded_bg : bool) (w : world) :
  1 <= size ->
  ((exists w' r, draw_icon size palette rounded_bg w = (w', Ok r)) <->
   List.Forall (fun key => is_Some (palette !! key))
     (["bg"; "line_green"; "line_earth"; "earth"; "card"; "green"]
      ++ (if 32 <=? size then ["line_faint"] else [])
      ++ (if 48 <=? size then ["sage"; "sage_dim"] else [])
      ++ (if 64 <=? size then ["ring"] else []))).
Proof. intros _. apply (draw_icon_Ok_iff size palette rounded_bg w). Qed.

Lemma draw_icon_required_entries_witness :
  (exists w' r,
     draw_icon 48 (delete "ring" DARK) true empty_world = (w', Ok r)) <->
  List.Forall (fun key => is_Some (delete "ring" DARK !! key))
    (["bg"; "line_green"; "line_earth"; "earth"; "card"; "green"]
     ++ (if 32 <=? 48 then ["line_faint"] else [])
     ++ (if 48 <=? 48 then ["sage"; "sage_dim"] else [])
     ++ (if 64 <=? 48 then ["ring"] else [])).
Proof.
  apply (draw_icon_required_entries 48 (delete "ring" DARK) true empty_world).
  lia.
Defined.

Lemma required_mono (size1 size2 : Z) (key : string) :
  size1 <= size2 -> In key (required size1) -> In key (required size2).
Proof.
  intros Hle. unfold required.
  destruct (Z.leb_spec 32 size1), (Z.leb_spec 48 size1), (Z.leb_spec 64 size1),
    (Z.leb_spec 32 size2), (Z.leb_spec 48 size2), (Z.leb_spec 64 size2);
    try lia; simpl; intros Hin;
    repeat (destruct Hin as [<-|Hin]; [solve [in_list]|]); destruct Hin.
Qed.

(** X3.  A palette that renders a size renders every smaller size down
    to 1: if [draw_icon] returns normally at [size2], it does at every
    [size1] with [1 <= size1 <= size2], from any state and with either
    background. *)
Theorem draw_icon_smaller_size (size1 size2 : Z) (palette : gmap string color)
    (rb1 rb2 : bool) (w1 w2 : world) :
  1 <= size1 -> size1 <= size2 ->
  (exists w' r, draw_icon size2 palette rb2 w2 = (w', Ok r)) ->
  exists w' r, draw_icon size1 palette rb1 w1 = (w', Ok r).
Proof.
  intros _ Hle. rewrite !draw_icon_Ok_iff, !List.Forall_forall.
  intros H key Hk. apply H. by eapply required_mono.
Qed.

Lemma draw_icon_smaller_size_witness :
  exists w' r, draw_icon 16 (delete "ring" DARK) false empty_world = (w', Ok r).
Proof.
  apply (draw_icon_smaller_size 16 48 (delete "ring" DARK) false true
           empty_world empty_world); [lia | lia |].
  eexists _, _. vm_compute. reflexivity.
Defined.

(** ** What the result depends on *)

Lemma lookup_total_agree (p1 p2 : gmap string color) (key : string) :
  p1 !! key = p2 !! key -> p1 !!! key = p2 !!! key.
Proof.
  intros H. unfold lookup_total, map_lookup_total. by rewrite H.
Qed.

Lemma flat_map_agree {A B : Type} (f g : A -> list B) (l : list A) :
  (forall x, In x l -> f x = g x) -> flat_map f l = flat_map g l.
Proof.
  induction l as [|x l IH]; intros H; simpl; [done|].
  rewrite (H x) by (by left). f_equal. apply IH. intros. apply H. by right.
Qed.

Lemma realise_agree (s : Q) (p1 p2 : gmap string color) :
  (forall key, In key roles -> p1 !!! key = p2 !!! key) ->
  List.Forall (fun p => realise s p1 (snd p) = realise s p2 (snd p)) scene.
Proof.
  intros Ht. unfold scene.
  repeat (apply List.Forall_cons;
    [cbn [snd realise ink_color];
     repeat match goal with
            | |- context [p1 !!! ?k] => rewrite (Ht k) by (solve [in_list])
            end;
     reflexivity|]).
  apply List.Forall_nil.
Qed.

Lemma icon_agree (size : Z) (p1 p2 : gmap string color) (rounded_bg : bool) :
  (forall key, In key roles -> p1 !! key = p2 !! key) ->
  icon size p1 rounded_bg = icon size p2 rounded_bg.
Proof.
  intros H.
  assert (Ht : forall key, In key roles -> p1 !!! key = p2 !!! key)
    by (intros; by apply lookup_total_agree, H).
  unfold icon. f_equal. f_equal.
  - unfold background_call. by rewrite (Ht "bg") by in_list.
  - apply flat_map_agree. intros e He.
    apply elements_at_iff in He as (ly & He & _).
    pose proof (realise_agree (scale size) p1 p2 Ht) as Hall.
    rewrite List.Forall_forall in Hall. apply (Hall (ly, e) He).
Qed.

Lemma first_missing_agree (p1 p2 : gmap string color) (keys : list string) :
  (forall key, In key keys -> p1 !! key = p2 !! key) ->
  first_missing p1 keys = first_missing p2 keys.
Proof.
  unfold first_missing. induction keys as [|k keys IH]; intros H; [done|].
  simpl. unfold missing at 1 3. rewrite (H k) by (by left).
  destruct (p2 !! k); [|done]. apply IH. intros. apply H. by right.
Qed.

(** X4.  The result of [draw_icon] depends on the palette through its ten
    roles only: two palettes that agree on them, whatever other keys they
    hold and whether or not a role is missing from both, give images with
    the same content or the same exception, from any two states. *)
Theorem draw_icon_other_keys_ignored (size : Z) (p1 p2 : gmap string color)
    (rounded_bg : bool) (w1 w2 : world) :
  (forall key, In key roles -> p1 !! key = p2 !! key) ->
  returned (draw_icon size p1 rounded_bg w1) =
  returned (draw_icon size p2 rounded_bg w2).
Proof.
  intros H.
  destruct (draw_icon_runs size p1 rounded_bg w1) as (i1 & Hr1 & Hi1).
  destruct (draw_icon_runs size p2 rounded_bg w2) as (i2 & Hr2 & Hi2).
  rewrite Hr1, Hr2. unfold outcome_of in *.
  rewrite <- (first_missing_agree p1 p2 (lookups size)) in *
    by (intros; by apply H, lookups_roles with size).
  destruct (first_missing p1 (lookups size)); [done|]. simpl.
  rewrite !fresh_lookup, Hi1, Hi2 by done. f_equal. by apply icon_agree.
Qed.

Lemma draw_icon_other_keys_ignored_witness :
  returned (draw_icon 64 DARK true empty_world) =
  returned (draw_icon 64 (<["accent" := [255; 0; 0]]> DARK) true empty_world).
Proof.
  apply (draw_icon_other_keys_ignored 64 DARK (<["accent" := [255; 0; 0]]> DARK)
           true empty_world empty_world).
  intros key Hk. simpl in Hk.
  repeat (destruct Hk as [<-|Hk]; [by vm_compute|]). destruct Hk.
Defined.

(** X5.  At every size of at least 1, whatever the palette and whether
    the palette lookups succeed or one raises, [draw_icon] allocates
    exactly one image, of the requested mode and size, prints nothing,
    saves nothing and leaves every image that existed before as it was. *)
Theorem draw_icon_frame (size : Z) (palette : gmap string color)
    (rounded_bg : bool) (w : world) :
  1 <= size ->
  exists img r,
    draw_icon size palette rounded_bg w = (World (heap w ++ [img]) (out w), r) /\
    mode img = "RGBA" /\ width img = size /\ height img = size /\
    background img = [0; 0; 0; 0] /\
    match r with Ok l => l = length (heap w) | Raise _ => True end.
Proof.
  intros _.
  destruct (draw_icon_local size palette rounded_bg) as (ops & r & _ & Hrun).
  eexists _, _. split; [apply Hrun|]. by destruct r.
Qed.

Lemma draw_icon_frame_witness :
  exists img r,
    draw_icon 32 (delete "card" LIGHT) true empty_world
      = (World (heap empty_world ++ [img]) (out empty_world), r) /\
    mode img = "RGBA" /\ width img = 32 /\ height img = 32 /\
    background img = [0; 0; 0; 0] /\
    match r with Ok l => l = length (heap empty_world) | Raise _ => True end.
Proof.
  apply (draw_icon_frame 32 (delete "card" LIGHT) true empty_world). lia.
Defined.

(** X6.  The [rounded_bg] flag changes the first drawing call and nothing
    else: with the same size and palette, the two settings raise the same
    exception, or return images that differ only in that the first call is
    a rounded rectangle in one and a rectangle over the same box in the same
    colour in the other. *)
Theorem rounded_bg_only_background (size : Z) (palette : gmap string color)
    (w1 w2 : world) :
  match returned (draw_icon size palette true w1),
        returned (draw_icon size palette false w2) with
  | Ok a, Ok b =>
      exists xy r c rest,
        drawn a = RoundedRectangle xy r c :: rest /\
        drawn b = Rectangle xy c :: rest /\
        mode a = mode b /\ width a = width b /\ height a = height b /\
        background a = background b
  | Raise e1, Raise e2 => e1 = e2
  | _, _ => False
  end.
Proof.
  destruct (draw_icon_runs size palette true w1) as (i1 & Hr1 & Hi1).
  destruct (draw_icon_runs size palette false w2) as (i2 & Hr2 & Hi2).
  rewrite Hr1, Hr2. unfold outcome_of in *.
  destruct (first_missing palette (lookups size)); [done|]. simpl.
  rewrite !fresh_lookup, Hi1, Hi2 by done.
  by eexists _, _, _, _.
Qed.

(** ** Staying on the canvas *)

Ltac canvas_tac :=
  cbn [in_canvas]; unfold lw;
  repeat match goal with
         | H : (_ <=? _) = true |- _ => apply Z.leb_le in H
         | H : (_ <=? _) = false |- _ => apply Z.leb_gt in H
         | H : (_ <? _) = _ |- _ => clear H
         end;
  rewrite ?int_scale; cbn [Qnum Qden];
  repeat match goal with
         | |- context [if ?a <? ?b then _ else _] => destruct (Z.ltb_spec a b)
         end;
  repeat split; try reflexivity;
  Z.to_euclidean_division_equations; lia.

Ltac canvas_step :=
  first [ apply draws_ret
        | apply draws_getitem
        | apply draws_call; [canvas_tac]
        | apply draws_if; intros ?
        | apply draws_bind; [| intros ?] ].

Lemma draw_icon_on_canvas (size : Z) (palette : gmap string color)
    (rounded_bg : bool) :
  6 <= size ->
  exists ops (r : result unit), Forall (in_canvas size) ops /\
    forall w, draw_icon size palette rounded_bg w =
      (World (heap w ++ [Image "RGBA" size size [0; 0; 0; 0] ops]) (out w),
       match r with Ok _ => Ok (length (heap w)) | Raise e => Raise e end).
Proof.
  intros Hsize. unfold draw_icon.
  match goal with |- context [Image_new _ _ _ ≫= ?k] =>
    assert (Hk : draws_and_returns (in_canvas size) k) end.
  { cbv beta iota zeta delta [sc for_ ImageDraw_Draw draw_line draw_node
                              rounded_rectangle rectangle line ellipse].
    repeat (apply draws_and_returns_bind; [repeat canvas_step|]).
    apply draws_and_returns_ret. }
  destruct Hk as (ops & r & Hops & Hk). exists ops, r. split; [done|].
  intros w. rewrite bind_Image_new, Hk. simpl. by rewrite alter_fresh.
Qed.

(** X7.  From size 6 on, every drawing call of [draw_icon] stays on the
    canvas, whatever the palette and also when the run ends early: the
    background covers exactly the canvas and its corners fit, every line
    runs between two pixels of the canvas, and every bounding box of a
    circle is well ordered and within the canvas.  Size 6 is the least such
    size: at size 5 the outer circle of the first leaf node starts at
    column -1. *)
Theorem draw_icon_stays_on_canvas (size : Z) (palette : gmap string color)
    (rounded_bg : bool) (w : world) :
  6 <= size ->
  (forall img,
     heap (fst (draw_icon size palette rounded_bg w)) !! length (heap w) = Some img ->
     Forall (in_canvas size) (drawn img)) /\
  exists img, render 5 DARK false = Ok img /\
              ~ Forall (in_canvas 5) (drawn img).
Proof.
  intros Hsize. split.
  - destruct (draw_icon_on_canvas size palette rounded_bg Hsize)
      as (ops & r & Hops & Hrun).
    intros img. rewrite Hrun. simpl.
    rewrite list_lookup_middle by done. by intros [= <-].
  - eexists. split; [apply (render_spec 5 DARK false DARK_is_palette)|].
    rewrite List.Forall_forall. intros H.
    specialize (H (Ellipse (-1, 0, 1, 2) (Some [26; 46; 28])
                           (Some [196; 167; 125]) 1)).
    cbn [in_canvas] in H. assert (0 <= -1); [|lia].
    apply H. vm_compute. tauto.
Qed.

Lemma draw_icon_stays_on_canvas_witness :
  (forall img,
     heap (fst (draw_icon 16 LIGHT true empty_world)) !! length (heap empty_world)
       = Some img ->
     Forall (in_canvas 16) (drawn img)) /\
  exists img, render 5 DARK false = Ok img /\
              ~ Forall (in_canvas 5) (drawn img).
Proof. apply (draw_icon_stays_on_canvas 16 LIGHT true empty_world). lia. Defined.

(** ** Exports with an incomplete palette *)

Lemma for_acc_draw_icon_runs (palette : gmap string color) (rb : Z -> bool)
    (sizes : list Z) (acc : list ref) (w : world) :
  exists imgs,
    for_acc sizes (fun images sz =>
        img ← draw_icon sz palette (rb sz); mret (images ++ [img])) acc w =
    (World (heap w ++ imgs) (out w),
     outcome_of palette (flat_map lookups sizes)
                (acc ++ seq (length (heap w)) (length sizes))).
Proof.
  revert acc w. induction sizes as [|sz sizes IH]; intros acc w.
  - exists []. simpl. unfold mret, M_ret, outcome_of. simpl.
    rewrite !app_nil_r. by destruct w.
  - destruct (draw_icon_runs sz palette (rb sz) w) as (img & Hrun & _).
    cbn [for_acc flat_map]. unfold mbind at 1, M_bind at 1.
    unfold mbind at 1, M_bind at 1.
    rewrite Hrun. unfold outcome_of. rewrite first_missing_app.
    destruct (first_missing palette (lookups sz)) as [key|].
    + by exists [img].
    + unfold mret at 1, M_ret at 1.
      destruct (IH (acc ++ [length (heap w)])
                   (World (heap w ++ [img]) (out w))) as (imgs & Hrest).
      exists (img :: imgs). rewrite Hrest. unfold outcome_of.
      cbn [heap out length seq]. rewrite length_app. cbn [length].
      replace (length (heap w) + 1)%nat with (S (length (heap w))) by lia.
      by rewrite <- !app_assoc.
Qed.

Lemma not_palette_missing (palette : gmap string color) (keys : list string) :
  ~ is_palette palette -> (forall key, In key roles -> In key keys) ->
  exists key, first_missing palette keys = Some key.
Proof.
  intros Hn Hk. destruct (first_missing palette keys) as [key|] eqn:Hm;
    [by exists key|].
  destruct Hn. apply first_missing_None in Hm.
  rewrite List.Forall_forall in Hm. apply List.Forall_forall. auto.
Qed.

Lemma roles_lookups (size : Z) (key : string) :
  64 <= size -> In key roles -> In key (lookups size).
Proof.
  intros Hs. unfold lookups.
  destruct (Z.leb_spec 64 size), (Z.leb_spec 48 size), (Z.leb_spec 32 size);
    try lia.
  simpl. intros Hk.
  repeat (destruct Hk as [<-|Hk]; [solve [in_list]|]). destruct Hk.
Qed.

(** X8.  [generate_ico] writes all or nothing: with a palette that lacks
    one of the ten roles it raises [KeyError] for a role the palette lacks,
    and by then it has saved no file and printed no line; the renders that
    succeeded before are discarded. *)
Theorem generate_ico_all_or_nothing (filename : string)
    (palette : gmap string color) (w : world) :
  ~ is_palette palette ->
  exists w' key,
    generate_ico filename palette w = (w', Raise (KeyError key)) /\
    In key roles /\ palette !! key = None /\ out w' = out w.
Proof.
  intros Hn. unfold generate_ico. cbv zeta.
  destruct (for_acc_draw_icon_runs palette (fun sz => 32 <=? sz)
              [16; 24; 32; 48; 64; 128; 256] [] w) as (imgs & Hrun).
  unfold mbind at 1, M_bind at 1. rewrite Hrun. unfold outcome_of.
  destruct (not_palette_missing palette
              (flat_map lookups [16; 24; 32; 48; 64; 128; 256]) Hn)
    as (key & Hkey).
  { intros key Hk. apply in_flat_map. exists 64. split; [solve [in_list]|].
    by apply roles_lookups. }
  rewrite Hkey. eexists _, key. split; [reflexivity|].
  apply first_missing_Some in Hkey as [Hin Hmiss].
  split; [|by split].
  apply in_flat_map in Hin as (sz & _ & Hin). by apply lookups_roles in Hin.
Qed.

Lemma delete_ring_not_palette : ~ is_palette (delete "ring" DARK).
Proof.
  intros H. unfold is_palette in H. rewrite List.Forall_forall in H.
  destruct (H "ring") as [c Hc]; [solve [in_list]|]. by vm_compute in Hc.
Qed.

Lemma generate_ico_all_or_nothing_witness :
  exists w' key,
    generate_ico "subnetree.ico" (delete "ring" DARK) empty_world
      = (w', Raise (KeyError key)) /\
    In key roles /\ delete "ring" DARK !! key = None /\ out w' = out empty_world.
Proof.
  apply (generate_ico_all_or_nothing "subnetree.ico" (delete "ring" DARK)
           empty_world delete_ring_not_palette).
Defined.

(** X9.  [generate_pngs] is not all or nothing.  With a palette that has
    what size 32 needs but lacks one of the ten roles, it renders and saves
    the 32-pixel file, prints its line, and then raises [KeyError] at size
    64, for the missing one among [sage], [sage_dim] and [ring] that is
    looked up first: one file of the set is left written. *)
Theorem generate_pngs_partial (prefix : string) (palette : gmap string color)
    (w : world) :
  List.Forall (fun key => is_Some (palette !! key))
    ["bg"; "line_green"; "line_earth"; "earth"; "card"; "green"; "line_faint"] ->
  ~ is_palette palette ->
  exists w' key,
    generate_pngs prefix palette w = (w', Raise (KeyError key)) /\
    In key ["sage"; "sage_dim"; "ring"] /\ palette !! key = None /\
    out w' =
      out w ++ [Saved (png_path prefix 32) "PNG" (icon 32 palette true) None [];
                Printed (Created (png_path prefix 32))].
Proof.
  intros Hreq Hn. unfold generate_pngs.
  match goal with |- context [for_ _ ?b] => set (body := b) end.
  assert (Hbody : forall sz w0, exists img,
    body sz w0 =
    match first_missing palette (lookups sz) with
    | None => (World (heap w0 ++ [icon sz palette true])
                     (out w0 ++ [Saved (png_path prefix sz) "PNG"
                                       (icon sz palette true) None [];
                                 Printed (Created (png_path prefix sz))]),
               Ok tt)
    | Some key => (World (heap w0 ++ [img]) (out w0), Raise (KeyError key))
    end).
  { intros sz w0. subst body. cbv beta zeta.
    destruct (draw_icon_runs sz palette true w0) as (img & Hrun & Himg).
    exists img. unfold mbind, M_bind. rewrite Hrun. unfold outcome_of.
    destruct (first_missing palette (lookups sz)); [done|].
    rewrite Himg by done. unfold save, print. cbn [heap out fmap list_fmap].
    rewrite fresh_lookup. by rewrite <- app_assoc. }
  clearbody body. cbn [for_].
  assert (H32 : first_missing palette (lookups 32) = None)
    by (by apply first_missing_None, lookups_required).
  destruct (not_palette_missing palette (lookups 64) Hn) as (key & H64);
    [intros; by apply roles_lookups|].
  destruct (Hbody 32 w) as (i32 & Hb32). rewrite H32 in Hb32.
  unfold mbind at 1, M_bind at 1. rewrite Hb32. cbv beta iota.
  unfold mbind at 1, M_bind at 1.
  match goal with |- context [body 64 ?w1] =>
    destruct (Hbody 64 w1) as (i64 & Hb64) end.
  rewrite H64 in Hb64. rewrite Hb64.
  eexists _, key. split; [reflexivity|].
  apply first_missing_Some in H64 as [Hin Hmiss].
  split; [|by split].
  rewrite List.Forall_forall in Hreq. simpl in Hin.
  repeat (destruct Hin as [<-|Hin];
          [first [ solve [in_list]
                 | exfalso;
                   match type of Hmiss with _ !! ?k = None =>
                     destruct (Hreq k) as [c Hc]; [solve [in_list] | congruence]
                   end ]|]).
  destruct Hin.
Qed.

Lemma generate_pngs_partial_witness :
  exists w' key,
    generate_pngs "icon-dark" (delete "ring" DARK) empty_world
      = (w', Raise (KeyError key)) /\
    In key ["sage"; "sage_dim"; "ring"] /\
    delete "ring" DARK !! key = None /\
    out w' =
      out empty_world
      ++ [Saved (png_path "icon-dark" 32) "PNG"
                (icon 32 (delete "ring" DARK) true) None [];
          Printed (Created (png_path "icon-dark" 32))].
Proof.
  apply (generate_pngs_partial "icon-dark" (delete "ring" DARK) empty_world);
    [|apply delete_ring_not_palette].
  repeat (apply List.Forall_cons; [by vm_compute; eexists|]).
  apply List.Forall_nil.
Defined.

(** ** File names *)

Lemma string_length_append (a b : string) :
  String.length (a ++ b) = (String.length a + String.length b)%nat.
Proof. induction a as [|c a IH]; simpl; [done|]. by rewrite IH. Qed.

Lemma append_suffix_inj (p p' a b : string) :
  String.length a = String.length b -> (p ++ a = p' ++ b)%string ->
  p = p' /\ a = b.
Proof.
  intros Hlen. revert p'. induction p as [|c p IH]; intros [|c' p'] H;
    simpl in H.
  - done.
  - apply (f_equal String.length) in H.
    rewrite ?string_length_append in H. simpl in H.
    rewrite ?string_length_append in H. lia.
  - apply (f_equal String.length) in H.
    rewrite ?string_length_append in H. simpl in H.
    rewrite ?string_length_append in H. lia.
  - injection H as -> H. apply IH in H as [-> ->]. done.
Qed.

Lemma append_cons_assoc (p : string) (c : Ascii.ascii) (b : string) :
  (p ++ String c b = (p ++ String c "") ++ b)%string.
Proof.
  induction p as [|c' p IH]; [reflexivity|].
  change (String c' (p ++ String c b) = String c' ((p ++ String c "") ++ b))%string.
  by f_equal.
Qed.

Lemma png_name_inj (p p' : string) (sz sz' : Z) :
  In sz [32; 64; 128; 256; 512] -> In sz' [32; 64; 128; 256; 512] ->
  basename (png_path p sz) = basename (png_path p' sz') -> p = p' /\ sz = sz'.
Proof.
  intros Hs Hs' H. unfold png_path in H. cbn [basename] in H.
  simpl in Hs, Hs'.
  repeat (destruct Hs as [<-|Hs]; [|]); try destruct Hs;
    repeat (destruct Hs' as [<-|Hs']; [|]); try destruct Hs';
    match type of H with
    | (_ ++ ?s = _ ++ ?s')%string =>
        let v := eval vm_compute in s in
        let v' := eval vm_compute in s' in
        change (p ++ v = p' ++ v')%string in H
    end;
    first [ apply append_suffix_inj in H as [-> Hsuf]; [|reflexivity];
            first [by split | discriminate Hsuf]
          | rewrite (append_cons_assoc p') in H;
            apply append_suffix_inj in H as [_ Hsuf]; [|reflexivity];
            discriminate Hsuf
          | rewrite (append_cons_assoc p) in H;
            apply append_suffix_inj in H as [_ Hsuf]; [|reflexivity];
            discriminate Hsuf ].
Qed.

(** X10.  The file-name strings [generate_pngs] builds, prefix-size.png for
    the sizes 32, 64, 128, 256 and 512, differ whenever the prefixes differ
    or the sizes differ: the name determines the prefix and the size it was
    built from.  This is about the strings given to [os.path.join]; two
    different strings can still name one file. *)
Theorem png_names_differ (p p' : string) (sz sz' : Z) :
  In sz [32; 64; 128; 256; 512] -> In sz' [32; 64; 128; 256; 512] ->
  p <> p' \/ sz <> sz' ->
  basename (png_path p sz) <> basename (png_path p' sz').
Proof.
  intros Hs Hs' Hne H.
  destruct (png_name_inj p p' sz sz' Hs Hs' H) as [-> ->]. by destruct Hne.
Qed.

Lemma png_names_differ_witness :
  basename (png_path "icon-dark" 32) <> basename (png_path "icon-light" 128).
Proof.
  apply (png_names_differ "icon-dark" "icon-light" 32 128);
    [in_list | in_list | by left].
Defined.



(** ** Stroke widths at small sizes *)

Ltac stroke_tac :=
  cbn [one_pixel_stroke]; unfold lw;
  repeat match goal with
         | H : (_ <=? _) = _ |- _ => clear H
         | H : (_ <? _) = _ |- _ => clear H
         end;
  rewrite ?int_scale; cbn [Qnum Qden];
  try reflexivity; Z.to_euclidean_division_equations; lia.

Ltac stroke_step :=
  first [ apply draws_ret
        | apply draws_getitem
        | apply draws_call; [stroke_tac]
        | apply draws_if; intros ?
        | apply draws_bind; [| intros ?] ].

Lemma draw_icon_strokes (size : Z) (palette : gmap string color)
    (rounded_bg : bool) :
  size <= 102 ->
  exists ops (r : result unit), Forall one_pixel_stroke ops /\
    forall w, draw_icon size palette rounded_bg w =
      (World (heap w ++ [Image "RGBA" size size [0; 0; 0; 0] ops]) (out w),
       match r with Ok _ => Ok (length (heap w)) | Raise e => Raise e end).
Proof.
  intros Hsize. unfold draw_icon.
  match goal with |- context [Image_new _ _ _ ≫= ?k] =>
    assert (Hk : draws_and_returns one_pixel_stroke k) end.
  { cbv beta iota zeta delta [sc for_ ImageDraw_Draw draw_line draw_node
                              rounded_rectangle rectangle line ellipse].
    repeat (apply draws_and_returns_bind; [repeat stroke_step|]).
    apply draws_and_returns_ret. }
  destruct Hk as (ops & r & Hops & Hk). exists ops, r. split; [done|].
  intros w. rewrite bind_Image_new, Hk. simpl. by rewrite alter_fresh.
Qed.

(** X12.  Up to size 102 every stroke is a hairline: each line width and
    each outline width [draw_icon] passes is exactly 1, whatever the
    palette, because every design width is at most 5 and 5 * size / 256
    stays below 2.  Size 102 is the last such size: at size 103 the trunk is
    drawn 2 pixels wide. *)
Theorem draw_icon_hairlines (size : Z) (palette : gmap string color)
    (rounded_bg : bool) (w : world) :
  size <= 102 ->
  (forall img,
     heap (fst (draw_icon size palette rounded_bg w)) !! length (heap w) = Some img ->
     Forall one_pixel_stroke (drawn img)) /\
  exists img, render 103 DARK true = Ok img /\
              ~ Forall one_pixel_stroke (drawn img).
Proof.
  intros Hsize. split.
  - destruct (draw_icon_strokes size palette rounded_bg Hsize)
      as (ops & r & Hops & Hrun).
    intros img. rewrite Hrun. simpl.
    rewrite list_lookup_middle by done. by intros [= <-].
  - eexists. split; [apply (render_spec 103 DARK true DARK_is_palette)|].
    rewrite List.Forall_forall. intros H.
    specialize (H (Line (51, 80) (51, 53) [74; 222; 128; 89] 2)).
    cbn [one_pixel_stroke] in H. assert (2 = 1); [|lia].
    apply H. vm_compute. tauto.
Qed.

Lemma draw_icon_hairlines_witness :
  (forall img,
     heap (fst (draw_icon 64 DARK true empty_world)) !! length (heap empty_world)
       = Some img ->
     Forall one_pixel_stroke (drawn img)) /\
  exists img, render 103 DARK true = Ok img /\
              ~ Forall one_pixel_stroke (drawn img).
Proof. apply (draw_icon_hairlines 64 DARK true empty_world). lia. Defined.
